(** * Pychain: a shallow embedding of the client-side access layer

    The development follows the Python sources module by module:
    - [Provider]            (provider.py)   connection manager with failover;
    - [Contract]            (contract.py)   schema-driven method generation;
    - [Wallet]              (wallet.py, utils/validators.py)   the signer;
    - [TransactionManager]  (txmanager.py)  the transaction pipeline.

    Python exceptions are modelled by the error type [exn]; a computation
    that may raise returns [res A].  Mutable objects are records threaded
    explicitly: a method that mutates [self] returns the new [self]
    together with its outcome, so the state left behind by a call that
    raises is still observable.  Collaborator libraries (the RPC transport,
    the account library, the file system) are oracles passed as arguments. *)

From Stdlib Require Import ZArith String Ascii Bool Lia.
From stdpp Require Import base option list gmap strings pretty.

Local Open Scope string_scope.
Local Open Scope Z_scope.

(** ** Python exceptions and fallible computations *)

Inductive exn : Type :=
| IndexError
| KeyError (key : string)
| TypeError
| AttributeError (attr : string)
| ValueError (msg : string)
| ConnectionError (msg : string)
| OSError
| LibraryError.   (* any exception raised inside web3 / eth_account *)

Inductive res (A : Type) : Type :=
| Ok (a : A)
| Raise (e : exn).
Arguments Ok {A} a.
Arguments Raise {A} e.

#[global] Instance res_ret : MRet res := fun A a => Ok a.
#[global] Instance res_bind : MBind res := fun A B f m =>
  match m with
  | Ok a => f a
  | Raise e => Raise e
  end.

Definition is_ok {A} (r : res A) : bool :=
  match r with Ok _ => true | Raise _ => false end.

(** [l[i]] for a Python list and a Python integer: negative indices count
    from the end, anything out of range raises [IndexError]. *)
Definition py_index {A} (l : list A) (i : Z) : res A :=
  let len := Z.of_nat (length l) in
  let j := if i <? 0 then len + i else i in
  if (0 <=? j) && (j <? len)
  then match l !! Z.to_nat j with Some x => Ok x | None => Raise IndexError end
  else Raise IndexError.

(** ** provider.py *)

Module Provider.

Inductive Chain : Type :=
| ETHEREUM | POLYGON | ARBITRUM | OPTIMISM | BSC | AVALANCHE | BASE | LOCAL.

Inductive ProviderType : Type := HTTP | WEBSOCKET.

(** The [Web3] object built by [connect]: it remembers the endpoint and the
    transport it was opened with, and whether the proof-of-authority
    middleware was injected. *)
Record Web3 : Type := mkWeb3 {
  w3_url : string;
  w3_kind : ProviderType;
  w3_timeout : Z;
  w3_poa : bool
}.

Record t : Type := mkProvider {
  rpc_urls : list string;
  provider_type : ProviderType;
  timeout : Z;
  retry_count : Z;
  chain : option Chain;
  _current_provider_index : Z;
  _w3 : option Web3
}.

Definition set_index (self : t) (i : Z) : t :=
  mkProvider (rpc_urls self) (provider_type self) (timeout self)
    (retry_count self) (chain self) i (_w3 self).

Definition set_w3 (self : t) (h : Web3) : t :=
  mkProvider (rpc_urls self) (provider_type self) (timeout self)
    (retry_count self) (chain self) (_current_provider_index self) (Some h).

(** What the network does to one connection attempt inside the [try]
    block of [connect]:
    - [OpenFails]: building the transport or [Web3(provider)] raises, so
      the assignment to [self._w3] is never reached;
    - [ProbeFails]: [self._w3] has been assigned, then the middleware
      injection raises or [isconnected()] is false or raises;
    - [Live]: [isconnected()] is true. *)
Inductive attempt : Type := OpenFails | ProbeFails | Live.

(** The network as seen by one call: the outcome of the attempt made
    against the endpoint at each index. *)
Definition net : Type := Z → attempt.

Definition needs_poa (c : option Chain) : bool :=
  match c with
  | Some POLYGON | Some BSC => true
  | _ => false
  end.

Definition new_web3 (self : t) (rpc_url : string) : Web3 :=
  mkWeb3 rpc_url (provider_type self) (timeout self) (needs_poa (chain self)).

(** [failover], with the recursive call to [connect] passed in. *)
Definition failover_with {R} (connect : t → R) (raise : t → exn → R) (self : t) : R :=
  if _current_provider_index self <? Z.of_nat (length (rpc_urls self)) - 1
  then connect (set_index self (_current_provider_index self + 1))
  else raise self (ConnectionError "All RPC endpoints failed").

(** [connect]; [None] only when the recursion budget is used up. *)
Fixpoint connect_fuel (n : net) (fuel : nat) (self : t) : option (t * res unit) :=
  match fuel with
  | O => None
  | S fuel' =>
    match py_index (rpc_urls self) (_current_provider_index self) with
    | Raise e => Some (self, Raise e)
    | Ok rpc_url =>
      let failover := failover_with (connect_fuel n fuel') (λ s e, Some (s, Raise e)) in
      match n (_current_provider_index self) with
      | OpenFails => failover self
      | ProbeFails => failover (set_w3 self (new_web3 self rpc_url))
      | Live => Some (set_w3 self (new_web3 self rpc_url), Ok tt)
      end
    end
  end.

(** One more unit of budget than there are endpoints left to try. *)
Definition budget (self : t) : nat :=
  S (Z.to_nat (Z.of_nat (length (rpc_urls self)) - _current_provider_index self)).

Definition connect (n : net) (self : t) : option (t * res unit) :=
  connect_fuel n (budget self) self.

Definition failover (n : net) (self : t) : option (t * res unit) :=
  failover_with (connect n) (λ s e, Some (s, Raise e)) self.

(** The [rpc_url] argument of the constructor: one URL or a list. *)
Inductive rpc_arg : Type := OneUrl (u : string) | UrlList (l : list string).

Definition fresh (rpc_url : rpc_arg) (pt : ProviderType) (tmo retries : Z)
    (c : option Chain) : t :=
  mkProvider (match rpc_url with OneUrl u => [u] | UrlList l => l end)
    pt tmo retries c 0 None.

(** [Provider.__init__]: the state of [self] when the constructor leaves,
    normally or by an exception. *)
Definition __init__ (n : net) (rpc_url : rpc_arg) (pt : ProviderType) (tmo retries : Z)
    (c : option Chain) : option (t * res unit) :=
  connect n (fresh rpc_url pt tmo retries c).

(** What [isconnected()] does when the [w3] property calls it on the
    handle already held: it answers, or it raises.  The call is outside
    any [try], so an exception leaves through the caller. *)
Inductive probe : Type :=
| Answers (alive : bool)
| ProbeRaises (e : exn).

(** [self.connect(); return self._w3] *)
Definition reconnect (n : net) (self : t) : option (t * res (option Web3)) :=
  '(self', r) ← connect n self;
  Some (self', _ ← r; Ok (_w3 self')).

(** The [w3] property.  The probe is made only when a handle is held. *)
Definition w3 (p : probe) (n : net) (self : t) : option (t * res (option Web3)) :=
  match _w3 self with
  | None => reconnect n self
  | Some _ =>
    match p with
    | ProbeRaises e => Some (self, Raise e)
    | Answers false => reconnect n self
    | Answers true => Some (self, Ok (_w3 self))
    end
  end.

(** The operations a client can run on one instance. *)
Inductive op : Type :=
| OpConnect (n : net)
| OpFailover (n : net)
| OpW3 (p : probe) (n : net).

Definition run (o : op) (self : t) : option t :=
  match o with
  | OpConnect n => fst <$> connect n self
  | OpFailover n => fst <$> failover n self
  | OpW3 p n => fst <$> w3 p n self
  end.

(** States of an instance: what [__init__] leaves, then any operations. *)
Inductive reachable : t → Prop :=
| reach_init n rpc_url pt tmo retries c self r :
    __init__ n rpc_url pt tmo retries c = Some (self, r) → reachable self
| reach_step o self self' :
    reachable self → run o self = Some self' → reachable self'.

Fixpoint run_all (os : list op) (self : t) : option t :=
  match os with
  | [] => Some self
  | o :: os' => self' ← run o self; run_all os' self'
  end.

(** The state [connect] leaves when it settles on endpoint [i]. *)
Definition connected_at (self : t) (i : Z) (rpc_url : string) : t :=
  set_w3 (set_index self i) (new_web3 self rpc_url).

(** Two states with the same configuration fields. *)
Definition same_config (a b : t) : Prop :=
  rpc_urls a = rpc_urls b ∧ provider_type a = provider_type b ∧
  timeout a = timeout b ∧ retry_count a = retry_count b ∧ chain a = chain b.

(** The state after the [try] block of a failed attempt: untouched when
    the transport did not open, holding the new handle when it did. *)
Definition after_failed_attempt (n : net) (self : t) (u : string) (self1 : t) : Prop :=
  n (_current_provider_index self) = OpenFails ∧ self1 = self ∨
  n (_current_provider_index self) = ProbeFails ∧ self1 = set_w3 self (new_web3 self u).

(** The invariant of the connection state: the index is never negative,
    and it designates an endpoint whenever a handle is held. *)
Definition index_ok (self : t) : Prop :=
  0 ≤ _current_provider_index self ∧
  (is_Some (_w3 self) →
   _current_provider_index self < Z.of_nat (length (rpc_urls self))).

(** Endpoints used in the examples. *)
Definition two_urls : list string := ["bad://x"; "good://y"].
Definition bad_then_good : net := λ i, if i =? 1 then Live else ProbeFails.
Definition all_dead : net := λ _, ProbeFails.
Definition all_live : net := λ _, Live.
Definition never_opens : net := λ _, OpenFails.
Definition ab_urls : list string := ["https://a.example"; "https://b.example"].
Definition on_a : t :=
  mkProvider ab_urls HTTP 30 3 None 0 (Some (mkWeb3 "https://a.example" HTTP 30 false)).
Definition dead_on_b : t :=
  mkProvider ab_urls HTTP 30 3 None 1 (Some (mkWeb3 "https://b.example" HTTP 30 false)).
Definition abc_urls : list string :=
  ["https://a.example"; "https://b.example"; "https://c.example"].
Definition c_never_opens : net := λ i, if i =? 2 then OpenFails else ProbeFails.
Definition stuck_on_c : t :=
  mkProvider abc_urls HTTP 30 3 None 2 (Some (mkWeb3 "https://b.example" HTTP 30 false)).
Definition on_c : t :=
  mkProvider abc_urls HTTP 30 3 None 2 (Some (mkWeb3 "https://c.example" HTTP 30 false)).
Definition later_operations : list op :=
  [OpFailover all_live; OpConnect all_live; OpW3 (Answers false) all_dead].

End Provider.

(** ** Python values and the collaborators behind a contract call *)

(** Argument and return values, as far as the sources look into them. *)
Inductive pyval : Type :=
| VNone
| VBool (b : bool)
| VInt (z : Z)
| VStr (s : string).

(** [HexBytes]: a byte string known by its [.hex()] form. *)
Record HexBytes : Type := mkHexBytes { hex : string }.

(** [eth_account]'s [LocalAccount]. *)
Record Account : Type := mkAccount { acct_address : string; acct_key : HexBytes }.

(** [SignedTransaction] as returned by [account.sign_transaction]. *)
Record SignedTransaction : Type := mkSigned { rawTransaction : HexBytes; hash : HexBytes }.

(** A contract function bound to its arguments,
    [getattr(contract.functions, name)( *args )]. *)
Record BoundCall : Type := mkBound { fn_name : string; fn_args : list pyval }.

(** The [signer] argument of [send]: a private key or an account object. *)
Inductive signer_arg : Type :=
| SignerKey (k : string)
| SignerAccount (a : Account).

(** The keywords that [send] declares as parameters of its own. *)
Definition named_keywords : list string := ["signer"; "gas"; "gas_price"; "value"].

(** [m] holds none of them. *)
Definition only_extra (m : gmap string pyval) : bool :=
  forallb (λ k, match m !! k with None => true | Some _ => false end) named_keywords.

(** What is left for [**kwargs] once the declared parameters have taken
    the keywords of their names: a dictionary without those names. *)
Definition extra_keywords : Type := { m : gmap string pyval | only_extra m = true }.


(** Keyword arguments of a call to a generated method: the four that
    [send] declares, and the others. *)
Record kwargs : Type := mkKwargs {
  signer : option signer_arg;
  gas : option Z;
  gas_price : option Z;
  value : option Z;
  rest : extra_keywords
}.


(** The libraries and the node behind them.  Every entry may raise. *)
Record Backend : Type := mkBackend {
  (* web3 contract object *)
  functions : string → list pyval → res BoundCall;
  fn_call : BoundCall → kwargs → res pyval;
  build_transaction : BoundCall → gmap string pyval → res (gmap string pyval);
  (* node, through the provider's current handle *)
  get_gas_price : res Z;
  get_transaction_count : string → res Z;
  send_raw_transaction : HexBytes → res HexBytes;
  (* eth_account *)
  from_key : string → res Account;
  sign_transaction : Account → gmap string pyval → res SignedTransaction;
  create : Account;
  encrypt : string → string → res string
}.

(** A backend in which every collaborator answers. *)
Definition alice : Account := mkAccount "0xA11ce" (mkHexBytes "a11ce").
Definition answering : Backend :=
  mkBackend
    (λ name args, Ok (mkBound name args))
    (λ _ _, Ok (VInt 42))
    (λ _ tx, Ok tx)
    (Ok 7)
    (λ _, Ok 3)
    (λ raw, Ok (mkHexBytes ("0xhash:" +:+ hex raw)))
    (λ k, Ok (mkAccount ("0x" +:+ k) (mkHexBytes k)))
    (λ a tx, Ok (mkSigned (mkHexBytes ("signed-by:" +:+ acct_address a))
                          (mkHexBytes "0xh")))
    alice
    (λ k password, Ok ("keystore:" +:+ k)).
(** ** contract.py *)

Module Contract.

(** A value inside an ABI entry: a string, or anything else JSON allows
    (the generator only ever compares with strings). *)
Inductive json : Type :=
| JStr (s : string)
| JOther.

#[global] Instance json_eq_dec : EqDecision json.
Proof. solve_decision. Defined.

(** The callables [generate_methods] builds: the closure returned by
    [make_view_method(name)] or by [make_tx_method(name)]. *)
Inductive method : Type :=
| ViewMethod (name : string)
| TxMethod (name : string).

(** What an attribute of a [Contract] instance can be. *)
Inductive attr : Type :=
| AStr (s : string)                  (* self.address *)
| AAbi (l : list (gmap string json)) (* self.abi *)
| AProvider                          (* self.provider *)
| AWeb3Contract                      (* self._contract *)
| AMethod (m : method)               (* set by generate_methods *)
| AClass (name : string).            (* found on the class, not the instance *)

(** Names every instance answers to through its class: the class body of
    [Contract] and what [object] provides. *)
Definition class_attrs : list string :=
  [ "__init__"; "generate_methods"; "call"; "send"; "estimate_gas"; "from_config";
    "__module__"; "__doc__"; "__dict__"; "__weakref__";
    "__class__"; "__delattr__"; "__dir__"; "__eq__"; "__format__"; "__ge__";
    "__getattribute__"; "__getstate__"; "__gt__"; "__hash__"; "__init_subclass__";
    "__le__"; "__lt__"; "__ne__"; "__new__"; "__reduce__"; "__reduce_ex__";
    "__repr__"; "__setattr__"; "__sizeof__"; "__str__"; "__subclasshook__" ].

(** An instance is its attribute dictionary. *)
Definition getattr (self : gmap string attr) (name : string) : option attr :=
  match self !! name with
  | Some a => Some a
  | None => if bool_decide (name ∈ class_attrs) then Some (AClass name) else None
  end.

Definition hasattr (self : gmap string attr) (name : string) : bool :=
  bool_decide (is_Some (getattr self name)).

Definition setattr (self : gmap string attr) (name : string) (a : attr) : gmap string attr :=
  <[name := a]> self.

(** [item.get("type") != "function"] *)
Definition not_function (item : gmap string json) : bool :=
  negb (bool_decide (item !! "type" = Some (JStr "function"))).

(** [item.get("stateMutability", "") in ["view", "pure"]] *)
Definition is_view (item : gmap string json) : bool :=
  match item !! "stateMutability" with
  | Some (JStr m) => bool_decide (m ∈ ["view"; "pure"])
  | _ => false
  end.

(** The body of the loop of [generate_methods] for one entry. *)
Definition generate_step (self : gmap string attr) (item : gmap string json)
    : res (gmap string attr) :=
  if not_function item then Ok self
  else match item !! "name" with
       | None => Raise (KeyError "name")
       | Some JOther => Raise TypeError
       | Some (JStr func_name) =>
           if hasattr self func_name then Ok self
           else if is_view item
                then Ok (setattr self func_name (AMethod (ViewMethod func_name)))
                else Ok (setattr self func_name (AMethod (TxMethod func_name)))
       end.

(** The loop [for item in ...] of [generate_methods]. *)
Fixpoint generate_over (items : list (gmap string json)) (self : gmap string attr)
    : res (gmap string attr) :=
  match items with
  | [] => Ok self
  | item :: rest => self' ← generate_step self item; generate_over rest self'
  end.

Definition generate_methods (self : gmap string attr) : res (gmap string attr) :=
  match getattr self "abi" with
  | Some (AAbi items) => generate_over items self
  | Some _ => Raise TypeError
  | None => Raise (AttributeError "abi")
  end.

(** The instance as [__init__] has filled it in when it reaches
    [self.generate_methods()]: checksummed address, loaded ABI, provider
    and web3 contract object. *)
Definition before_generation (address : string) (abi : list (gmap string json))
    : gmap string attr :=
  <["address" := AStr address]>
    (<["abi" := AAbi abi]>
      (<["provider" := AProvider]>
        (<["_contract" := AWeb3Contract]> ∅))).

(** [Contract.__init__], from the point where its collaborators have
    delivered the address, the ABI, the provider and the web3 contract. *)
Definition __init__ (address : string) (abi : list (gmap string json))
    : res (gmap string attr) :=
  generate_methods (before_generation address abi).

(** [Contract.call] *)
Definition call (b : Backend) (function_name : string) (args : list pyval)
    (kw : kwargs) : res pyval :=
  func ← functions b function_name args;
  fn_call b func kw.

(** [not signer] *)
Definition not_signer (signer : option signer_arg) : bool :=
  match signer with
  | None => true
  | Some (SignerKey k) => bool_decide (k = "")
  | Some (SignerAccount _) => false
  end.

(** [x or d] on an optional integer, [d] being a call that may raise. *)
Definition int_or (x : option Z) (d : res Z) : res Z :=
  match x with
  | Some v => if v =? 0 then d else Ok v
  | None => d
  end.

Definition missing_signer : exn :=
  ValueError "Signer (private key) required for transactions".

(** The account [send] signs with: built from the key when [signer] is a
    string, the object itself otherwise. *)
Definition load_account (b : Backend) (signer : option signer_arg) : res Account :=
  match signer with
  | Some (SignerKey k) => from_key b k
  | Some (SignerAccount a) => Ok a
  | None => Raise missing_signer
  end.

(** The dictionary handed to [build_transaction]; later keys win, so the
    caller's extra keywords override the five computed entries. *)
Definition tx_params (account : Account) (gas gasPrice nonce value : Z)
    (kwargs : extra_keywords) : gmap string pyval :=
  `kwargs ∪
  <["from" := VStr (acct_address account)]>
    (<["gas" := VInt gas]>
      (<["gasPrice" := VInt gasPrice]>
        (<["nonce" := VInt nonce]>
          (<["value" := VInt value]> ∅)))).

(** [Contract.send] *)
Definition send (b : Backend) (function_name : string) (args : list pyval)
    (signer : option signer_arg) (gas gas_price : option Z) (value : Z)
    (kwargs : extra_keywords) : res string :=
  if not_signer signer then Raise missing_signer
  else
    account ← load_account b signer;
    func ← functions b function_name args;
    gas' ← int_or gas (Ok 200000);
    gasPrice ← int_or gas_price (get_gas_price b);
    nonce ← get_transaction_count b (acct_address account);
    tx ← build_transaction b func (tx_params account gas' gasPrice nonce value kwargs);
    signed_tx ← sign_transaction b account tx;
    tx_hash ← send_raw_transaction b (rawTransaction signed_tx);
    Ok (hex tx_hash).


(** The generated wrapper for a function entry called [name]. *)
Definition wrapper_of (name : string) (item : gmap string json) : method :=
  if is_view item then ViewMethod name else TxMethod name.

(** [item] is a function entry called [name]. *)
Definition is_function_named (name : string) (item : gmap string json) : bool :=
  negb (not_function item) && bool_decide (item !! "name" = Some (JStr name)).

(** Every function entry of a schema carries its name as a string. *)
Definition well_formed (item : gmap string json) : bool :=
  not_function item ||
  match item !! "name" with Some (JStr _) => true | _ => false end.



(** Schemas used in the examples. *)
Definition fn_entry (name mutability : string) : gmap string json :=
  <["type" := JStr "function"]>
    (<["name" := JStr name]>
      (<["stateMutability" := JStr mutability]> ∅)).

Definition event_entry (name : string) : gmap string json :=
  <["type" := JStr "event"]> (<["name" := JStr name]> ∅).

Definition erc20_abi : list (gmap string json) :=
  [ fn_entry "balanceOf" "view"; event_entry "Transfer";
    fn_entry "transfer" "nonpayable" ].

(** Two overloads of [safeTransferFrom], the second one declared a view. *)
Definition overloaded_abi : list (gmap string json) :=
  [ fn_entry "safeTransferFrom" "nonpayable"; fn_entry "ownerOf" "view";
    fn_entry "safeTransferFrom" "view" ].

(** ERC-777 declares a function called [send]. *)
Definition erc777_abi : list (gmap string json) :=
  [ fn_entry "name" "view"; fn_entry "send" "nonpayable"; fn_entry "send" "view" ].


(** The instances the constructor builds for these schemas. *)
Definition built (abi : list (gmap string json)) : gmap string attr :=
  match __init__ "0xabc" abi with Ok self => self | Raise _ => ∅ end.

End Contract.

(** ** utils/validators.py and wallet.py *)

Module Wallet.

Definition hex_alphabet : list ascii :=
  list_ascii_of_string "0123456789abcdefABCDEF".

(** [all(c in '0123456789abcdefABCDEF' for c in key)] *)
Definition all_hex (key : string) : bool :=
  forallb (λ c, bool_decide (c ∈ hex_alphabet)) (list_ascii_of_string key).

Definition invalid_key : exn := ValueError "Key must be a valid hexadecimal string.".

(** [validate_key]; the argument is a string by its type, so the
    [isinstance] test passes. *)
Definition validate_key (key : string) : res unit :=
  if all_hex key then Ok tt else Raise invalid_key.

(** A [Wallet] instance.  [private_key] is an attribute that only one
    branch of the constructor sets. *)
Record t : Type := mkWallet {
  account : Account;
  private_key : option string;
  address : string
}.

(** [Wallet.__init__] *)
Definition __init__ (b : Backend) (key : option string) : res t :=
  let generated :=
    let acct := create b in
    Ok (mkWallet acct (Some (hex (acct_key acct))) (acct_address acct)) in
  match key with
  | Some k =>
    if bool_decide (k ≠ "")             (* [if private_key:] *)
    then _ ← validate_key k;
         acct ← from_key b k;
         Ok (mkWallet acct None (acct_address acct))
    else generated
  | None => generated
  end.

(** [Wallet.sign_transaction] *)
Definition sign_transaction (b : Backend) (self : t) (transaction : gmap string pyval)
    : res SignedTransaction :=
  sign_transaction b (account self) transaction.

(** [Wallet.get_key] *)
Definition get_key (self : t) : res string :=
  match private_key self with
  | Some k => Ok k
  | None => Raise (AttributeError "private_key")
  end.

(** What [with open(path, 'w') as f: json.dump(encrypted, f)] does:
    - [CannotOpen]: [open] raises and nothing is touched;
    - [DumpFails partial e]: the file has been created or truncated by
      [open], then writing or closing raises [e], leaving [partial] (the
      empty string, or a part of the text) in the file;
    - [Written]: the file holds the whole text. *)
Inductive write : Type :=
| CannotOpen
| DumpFails (partial : string) (e : exn)
| Written.

(** [Wallet.export_key].  The file system is a map from paths to file
    contents; [disk path text] is what writing [text] to [path] does. *)
Definition export_key (b : Backend) (disk : string → string → write) (self : t)
    (password path : string) (fs : gmap string string)
    : gmap string string * res string :=
  match get_key self with
  | Raise e => (fs, Raise e)
  | Ok k =>
    match encrypt b k password with
    | Raise e => (fs, Raise e)
    | Ok encrypted =>
      match disk path encrypted with
      | CannotOpen => (fs, Raise OSError)
      | DumpFails partial e => (<[path := partial]> fs, Raise e)
      | Written => (<[path := encrypted]> fs, Ok path)
      end
    end
  end.

(** The size of a key string as the account library reads it
    ([HexBytes(key)]): one byte for two digits, an odd number of digits
    being padded on the left with one zero digit. *)
Definition key_bytes (key : string) : nat := Nat.div2 (S (String.length key)).

(** The claim's notion of a well-formed secret of the expected length:
    hexadecimal digits only, 32 bytes of them. *)
Definition is_hex_secret (key : string) : bool :=
  all_hex key && bool_decide (key_bytes key = 32%nat).

(** What the constructor leaves to [Account.from_key]: the library
    refuses a string of hexadecimal digits that is not 32 bytes long with
    a [ValueError]. *)
Definition checks_key_length (b : Backend) : Prop :=
  ∀ k, all_hex k = true → key_bytes k ≠ 32%nat →
       ∃ msg, from_key b k = Raise (ValueError msg).

(** Examples. *)
Definition key64 : string :=
  "4c0883a69102937d6231471b5dbb6204fe5129617082792ae468d01a3f362318".
Definition from_key64 : t :=
  mkWallet (mkAccount ("0x" +:+ key64) (mkHexBytes key64)) None ("0x" +:+ key64).
Definition generated : t := mkWallet alice (Some "a11ce") "0xA11ce".

(** A backend whose [from_key] checks the size of the key as the account
    library does; the other collaborators answer as in [answering]. *)
Definition sized_from_key (k : string) : res Account :=
  if bool_decide (key_bytes k = 32%nat)
  then Ok (mkAccount ("0x" +:+ k) (mkHexBytes k))
  else Raise (ValueError "The private key must be exactly 32 bytes long").
Definition checking : Backend :=
  match answering with
  | mkBackend fns call build price count submit _ sign fresh enc =>
    mkBackend fns call build price count submit sized_from_key sign fresh enc
  end.

End Wallet.

(** ** txmanager.py *)

Module TransactionManager.

(** The [provider] handed to the constructor.  The class in provider.py
    defines the property [w3] and no attribute [web3]; the methods below
    read [self.provider.web3], which only another kind of object offers. *)
Inductive provider_obj : Type :=
| ProviderInstance (p : Provider.t)
| Web3Holder.

(** [self.provider.web3.eth] *)
Definition web3_eth (b : Backend) (p : provider_obj) : res Backend :=
  match p with
  | ProviderInstance _ => Raise (AttributeError "web3")
  | Web3Holder => Ok b
  end.

Record t : Type := mkTransactionManager {
  wallet : Wallet.t;
  provider : provider_obj;
  auto_nonce : bool;
  confirm_blocks : Z;
  nonce_cache : option Z;
  pending_txs : gmap string (gmap string pyval)
}.

(** [TransactionManager.__init__] *)
Definition __init__ (w : Wallet.t) (p : provider_obj) (auto_nonce : bool)
    (confirm_blocks : Z) : t :=
  mkTransactionManager w p auto_nonce confirm_blocks None ∅.

(** Calls made to the collaborators, in order. *)
Inductive event : Type :=
| Sign (a : Account) (transaction : gmap string pyval)
| GetTransactionCount (address : string)
| SendRaw (raw : HexBytes).

(** [TransactionManager.get_nonce] *)
Definition get_nonce (b : Backend) (self : t) (use_pending : bool)
    : res Z * list event :=
  if auto_nonce self then
    match use_pending, nonce_cache self with
    | true, Some cached => (Ok cached, [])
    | _, _ =>
      match web3_eth b (provider self) with
      | Raise e => (Raise e, [])
      | Ok eth => (get_transaction_count eth (Wallet.address (wallet self)),
                   [GetTransactionCount (Wallet.address (wallet self))])
      end
    end
  else (Ok (match nonce_cache self with
            | Some cached => cached
            | None => 0
            end), []).

(** [TransactionManager.send_transaction]: the instance after the call,
    the outcome, and the calls made. *)
Definition send_transaction (b : Backend) (self : t) (transaction : gmap string pyval)
    : t * res string * list event :=
  match Wallet.sign_transaction b (wallet self) transaction with
  | Raise e => (self, Raise e, [Sign (Wallet.account (wallet self)) transaction])
  | Ok signed_tx =>
    match web3_eth b (provider self) with
    | Raise e => (self, Raise e, [Sign (Wallet.account (wallet self)) transaction])
    | Ok eth =>
      (self,
       tx_hash ← send_raw_transaction eth (rawTransaction signed_tx); Ok (hex tx_hash),
       [Sign (Wallet.account (wallet self)) transaction;
        SendRaw (rawTransaction signed_tx)])
    end
  end.

(** Examples: a request without a nonce, and a manager as constructed. *)
Definition transfer_request : gmap string pyval :=
  <["to" := VStr "0xB0b"]>
    (<["value" := VInt 10]>
      (<["gas" := VInt 21000]>
        (<["gasPrice" := VInt 50]> ∅))).
Definition manager : t := __init__ Wallet.generated Web3Holder true 1.

End TransactionManager.

(** ** provider.py: the class methods that build a provider, and the reads *)

Module Factories.
Import Provider.

#[global] Instance Chain_eq_dec : EqDecision Chain.
Proof. solve_decision. Defined.

(** The [value] of each member of the [Chain] enumeration. *)
Definition value (c : Chain) : string :=
  match c with
  | ETHEREUM => "ethereum" | POLYGON => "polygon" | ARBITRUM => "arbitrum"
  | OPTIMISM => "optimism" | BSC => "bsc" | AVALANCHE => "avalanche"
  | BASE => "base" | LOCAL => "local"
  end.

(** A dict literal keyed by chains, and its lookup. *)
Fixpoint dict_get {V} (d : list (Chain * V)) (k : Chain) : option V :=
  match d with
  | [] => None
  | (k', v) :: d' => if decide (k' = k) then Some v else dict_get d' k
  end.

Definition DEFAULT_RPCS : list (Chain * string) :=
  [ (ETHEREUM, "https://ethereum-rpc.publicnode.com");
    (POLYGON, "https://polygon-bor-rpc.publicnode.com");
    (ARBITRUM, "https://arbitrum-one-rpc.publicnode.com");
    (OPTIMISM, "https://optimism-rpc.publicnode.com");
    (BSC, "https://bsc-rpc.publicnode.com");
    (AVALANCHE, "https://avalanche-c-chain-rpc.publicnode.com");
    (BASE, "https://base-rpc.publicnode.com");
    (LOCAL, "http://127.0.0.1:8545") ].

(** [os.getenv(var)] on the process environment. *)
Definition getenv (env : gmap string string) (var : string) : option string :=
  env !! var.

(** The truthiness test [if s:] on an optional string: [None] and the
    empty string are false. *)
Definition truthy (o : option string) : option string :=
  match o with
  | Some s => if bool_decide (s = "") then None else Some s
  | None => None
  end.

(** The outcome of a constructor call [cls(rpc_url, chain=chain)], the
    other arguments at their defaults: the instance, or the exception the
    constructor left with. *)
Definition cls (n : net) (rpc_url : rpc_arg) (c : option Chain) : option (res t) :=
  '(self, r) ← __init__ n rpc_url HTTP 30 3 c;
  Some (_ ← r; Ok self).

(** [Provider.from_env] *)
Definition from_env (env : gmap string string) (n : net) (var_name : string)
    : option (res t) :=
  match truthy (getenv env var_name) with
  | None => Some (Raise (ValueError ("Environment variable " +:+ var_name +:+ " not set")))
  | Some rpc_url => cls n (OneUrl rpc_url) None
  end.

Definition infura_networks : list (Chain * string) :=
  [ (ETHEREUM, "mainnet"); (POLYGON, "polygon-mainnet");
    (ARBITRUM, "arbitrum-mainnet"); (OPTIMISM, "optimism-mainnet") ].

(** [Provider.infura] *)
Definition infura (n : net) (api_key : string) (chain : Chain) : option (res t) :=
  let network := default "mainnet" (dict_get infura_networks chain) in
  let rpc_url := "https://" +:+ network +:+ ".infura.io/v3/" +:+ api_key in
  cls n (OneUrl rpc_url) (Some chain).

Definition alchemy_networks : list (Chain * string) :=
  [ (ETHEREUM, "eth-mainnet"); (POLYGON, "polygon-mainnet");
    (ARBITRUM, "arb-mainnet"); (OPTIMISM, "opt-mainnet") ].

(** [Provider.alchemy] *)
Definition alchemy (n : net) (api_key : string) (chain : Chain) : option (res t) :=
  let network := default "eth-mainnet" (dict_get alchemy_networks chain) in
  let rpc_url := "https://" +:+ network +:+ ".g.alchemy.com/v2/" +:+ api_key in
  cls n (OneUrl rpc_url) (Some chain).

(** [Provider.quicknode] *)
Definition quicknode (n : net) (endpoint : string) : option (res t) :=
  cls n (OneUrl endpoint) None.

(** [Provider.local] *)
Definition local (n : net) (port : Z) : option (res t) :=
  cls n (OneUrl ("http://127.0.0.1:" +:+ pretty port)) (Some LOCAL).

(** The loop of [auto] over the environment variables: the first one
    that is set to a non-empty string. *)
Fixpoint first_set (env : gmap string string) (vars : list string) : option string :=
  match vars with
  | [] => None
  | var :: vars' =>
    match truthy (getenv env var) with
    | Some rpc_url => Some rpc_url
    | None => first_set env vars'
    end
  end.

(** [Provider.auto] *)
Definition auto (env : gmap string string) (n : net) (chain : Chain) : option (res t) :=
  match first_set env ["RPC_URL"; "WEB3_PROVIDER_URI"; "ETH_RPC_URL"] with
  | Some rpc_url => cls n (OneUrl rpc_url) (Some chain)
  | None =>
    match dict_get DEFAULT_RPCS chain with
    | Some rpc_url => cls n (OneUrl rpc_url) (Some chain)
    | None => Some (Raise (KeyError (value chain)))
    end
  end.

(** [get_provider] *)
Definition get_provider (env : gmap string string) (n : net)
    (rpc_url : option string) (chain : Chain) : option (res t) :=
  match truthy rpc_url with
  | Some u => cls n (OneUrl u) (Some chain)
  | None => auto env n chain
  end.

(** A read through the [w3] property: [self.w3.eth.<query>].  When the
    property returns [None] the attribute lookup on it raises. *)
Definition read {A} (p : probe) (n : net) (query : Web3 → res A) (self : t)
    : option (t * res A) :=
  '(self', r) ← w3 p n self;
  Some (self', h ← r;
               match h with
               | Some handle => query handle
               | None => Raise (AttributeError "eth")
               end).

(** [Provider.get_block_number], [block_number] being the node's answer
    on a handle. *)
Definition get_block_number (p : probe) (n : net) (block_number : Web3 → res Z)
    (self : t) : option (t * res Z) :=
  read p n block_number self.

(** [Provider.get_gas_price] *)
Definition get_gas_price (p : probe) (n : net) (gas_price : Web3 → res Z)
    (self : t) : option (t * res Z) :=
  read p n gas_price self.

(** [Provider.get_balance]: the handle is fetched first, then the address
    is checksummed, then the node is asked. *)
Definition get_balance (p : probe) (n : net)
    (to_checksum_address : string → res string)
    (balance : Web3 → string → res Z) (self : t) (address : string)
    : option (t * res Z) :=
  read p n (λ handle, a ← to_checksum_address address; balance handle a) self.

(** What the constructor makes of a single URL. *)
Definition one_endpoint (n : net) (u : string) (c : option Chain) : option (res t) :=
  Some (match n 0 with
        | Live => Ok (mkProvider [u] HTTP 30 3 c 0 (Some (mkWeb3 u HTTP 30 (needs_poa c))))
        | _ => Raise (ConnectionError "All RPC endpoints failed")
        end).

(** Examples. *)
Definition env_two : gmap string string :=
  <["WEB3_PROVIDER_URI" := "https://second.example"]>
    (<["ETH_RPC_URL" := "https://third.example"]>
      (<["RPC_URL" := ""]> ∅)).

End Factories.

(** ** provider.py: what holds of an instance over its lifetime *)

Module ProviderInvariants.
Import Provider.

(** The handle held, if any, was opened by this instance on one of its
    endpoints, at the current index or before it. *)
Definition handle_origin (self : t) : Prop :=
  ∀ h, _w3 self = Some h →
    ∃ j u, 0 ≤ j ≤ _current_provider_index self ∧
           rpc_urls self !! Z.to_nat j = Some u ∧ h = new_web3 self u.

(** The index never passes the last endpoint. *)
Definition index_bounded (self : t) : Prop :=
  0 ≤ _current_provider_index self ≤ Z.max 0 (Z.of_nat (length (rpc_urls self)) - 1).

Definition lifetime_invariant (self : t) : Prop :=
  index_bounded self ∧ handle_origin self.

End ProviderInvariants.

(** ** utils/abi.py *)

Module ABILoader.

(** What [json.load] returns. *)
#[warnings="-register-all"]
Inductive jv : Type :=
| JNull
| JBool (b : bool)
| JNum (z : Z)
| JString (s : string)
| JArray (l : list jv)
| JObject (m : gmap string jv).

(** The exceptions of the loader, by the arguments of their messages. *)
Inductive load_exn : Type :=
| AbiFileNotFound (path : string)
    (* FileNotFoundError(f"ABI file not found: {path}") *)
| AbiNotFound (contract_name : string) (search_dirs : list string)
    (* FileNotFoundError(f"Could not find ABI for '{contract_name}' in {search_dirs}") *)
| InvalidFormat (path : string)
    (* ValueError(f"Invalid ABI format in {path}") *)
| InvalidDict
    (* ValueError("Invalid ABI dictionary format") *)
| Other (e : exn).
    (* raised by an operator or by a library *)

Inductive loaded (A : Type) : Type :=
| Loaded (a : A)
| Failed (e : load_exn).
Arguments Loaded {A} a.
Arguments Failed {A} e.

(** The file system as the loader sees it: [Path(p).exists()], and what
    [open] followed by [json.load] gives for a path that exists. *)
Record FS : Type := mkFS {
  exists_ : string → bool;
  json_load : string → res jv
}.

(** ["abi" == v] *)
Definition is_abi_string (v : jv) : bool :=
  match v with
  | JString s => bool_decide (s = "abi")
  | _ => false
  end.

(** ["abi" in v]: a key of a dict, an element of a list, a substring of
    a string; other values are not containers. *)
Definition contains_abi (v : jv) : res bool :=
  match v with
  | JObject m => Ok (bool_decide (is_Some (m !! "abi")))
  | JArray l => Ok (existsb is_abi_string l)
  | JString s => Ok (bool_decide (is_Some (String.index 0 "abi" s)))
  | _ => Raise TypeError
  end.

(** [v["abi"]] *)
Definition subscript_abi (v : jv) : res jv :=
  match v with
  | JObject m =>
    match m !! "abi" with
    | Some x => Ok x
    | None => Raise (KeyError "abi")
    end
  | _ => Raise TypeError
  end.

Definition lift {A} (r : res A) : loaded A :=
  match r with
  | Ok a => Loaded a
  | Raise e => Failed (Other e)
  end.

(** [ABILoader.from_file] *)
Definition from_file (fs : FS) (path : string) : loaded jv :=
  if negb (exists_ fs path) then Failed (AbiFileNotFound path)
  else
    match json_load fs path with
    | Raise e => Failed (Other e)
    | Ok data =>
      match data with
      | JArray _ => Loaded data
      | JObject m =>
        match m !! "abi" with
        | Some abi => Loaded abi
        | None =>
          match m !! "output" with
          | Some output =>
            match contains_abi output with
            | Raise e => Failed (Other e)
            | Ok true => lift (subscript_abi output)
            | Ok false => Failed (InvalidFormat path)
            end
          | None => Failed (InvalidFormat path)
          end
        end
      | _ => Failed (InvalidFormat path)
      end
    end.

(** The three file names tried for a contract name. *)
Definition patterns (contract_name : string) : list string :=
  [ contract_name +:+ ".json";
    contract_name +:+ ".abi.json";
    contract_name +:+ ".sol/" +:+ contract_name +:+ ".json" ].

Definition DEFAULT_ABI_DIRS : list string :=
  [ "./contracts"; "./abis"; "./artifacts"; "./build/contracts" ].

Section Search.
(** [str(Path(search_dir) / pattern)] *)
Variable join : string → string → string.
Variable fs : FS.

(** The inner loop of [from_name]: [None] when it runs to its end. *)
Fixpoint try_patterns (search_dir : string) (ps : list string) : option (loaded jv) :=
  match ps with
  | [] => None
  | pattern :: ps' =>
    if exists_ fs (join search_dir pattern)
    then Some (from_file fs (join search_dir pattern))
    else try_patterns search_dir ps'
  end.

(** The outer loop of [from_name]. *)
Fixpoint search (dirs : list string) (ps : list string) : option (loaded jv) :=
  match dirs with
  | [] => None
  | search_dir :: dirs' =>
    if negb (exists_ fs search_dir) then search dirs' ps
    else match try_patterns search_dir ps with
         | Some r => Some r
         | None => search dirs' ps
         end
  end.

(** [ABILoader.from_name] *)
Definition from_name (contract_name : string) (search_dirs : option (list string))
    : loaded jv :=
  let dirs := default DEFAULT_ABI_DIRS search_dirs in
  match search dirs (patterns contract_name) with
  | Some r => r
  | None => Failed (AbiNotFound contract_name dirs)
  end.

(** The paths [from_name] looks at, in the order it looks at them. *)
Definition candidates (dirs : list string) (ps : list string) : list string :=
  dir ← filter (λ d, exists_ fs d = true) dirs; (λ p, join dir p) <$> ps.
End Search.

(** [ABILoader.from_dict] *)
Definition from_dict (data : jv) : loaded jv :=
  match contains_abi data with
  | Raise e => Failed (Other e)
  | Ok true => lift (subscript_abi data)
  | Ok false =>
    match data with
    | JArray _ => Loaded data
    | _ => Failed InvalidDict
    end
  end.

(** [ABILoader.from_string], [json_loads] being the parser. *)
Definition from_string (json_loads : string → res jv) (abi_json : string) : loaded jv :=
  match json_loads abi_json with
  | Raise e => Failed (Other e)
  | Ok data => from_dict data
  end.

(** Examples: a project with a broken artifact in the first directory
    and a good one in the second.  [slash] is [str(Path(dir) / pattern)]
    for a directory name that pathlib leaves as it is (relative, without
    [.] or [..] components, without doubled or trailing slashes) and a
    relative pattern: the two joined by one slash. *)
Definition slash (dir pattern : string) : string := dir +:+ "/" +:+ pattern.
Definition project_dirs : list string := ["contracts"; "abis"].
Definition transfer_abi : jv :=
  JArray [JObject (<["type" := JString "function"]> (<["name" := JString "transfer"]> ∅))].
Definition foundry_artifact : jv :=
  JObject (<["output" := JObject (<["abi" := transfer_abi]> ∅)]> ∅).
Definition project : FS :=
  mkFS
    (λ p, bool_decide (p ∈ ["contracts"; "abis"; "contracts/ERC20.abi.json";
                            "abis/ERC20.json"; "abis/Token.json"]))
    (λ p, if bool_decide (p = "contracts/ERC20.abi.json") then Ok (JNum 0)
          else if bool_decide (p = "abis/ERC20.json") then Ok transfer_abi
          else if bool_decide (p = "abis/Token.json") then Ok foundry_artifact
          else Raise OSError).

End ABILoader.

(** ** wallet.py: wallets from the environment and from a keystore *)

Module WalletSources.

(** [Wallet.from_env] *)
Definition from_env (env : gmap string string) (b : Backend) (env_var : string)
    : res Wallet.t :=
  match Factories.truthy (Factories.getenv env env_var) with
  | None => Raise (ValueError ("Environment variable " +:+ env_var +:+ " not set"))
  | Some private_key => Wallet.__init__ b (Some private_key)
  end.

(** [Wallet.from_json]: [read_text] is [open(path).read()], [decrypt] is
    [Account.decrypt]. *)
Definition from_json (b : Backend) (read_text : string → res string)
    (decrypt : string → string → res HexBytes) (json_data password : string)
    : res Wallet.t :=
  text ← read_text json_data;
  key ← decrypt text password;
  Wallet.__init__ b (Some (hex key)).

(** The hexadecimal digits, by character code: [0-9], [A-F], [a-f]. *)
Definition hex_char (c : ascii) : Prop :=
  (48 ≤ nat_of_ascii c ≤ 57 ∨ 65 ≤ nat_of_ascii c ≤ 70 ∨
   97 ≤ nat_of_ascii c ≤ 102)%nat.

(** How a wallet was obtained from a key string. *)
Inductive from_key_string (b : Backend) (w : Wallet.t) : Prop :=
| by_constructor k :
    k ≠ "" → Wallet.__init__ b (Some k) = Ok w → from_key_string b w
| by_env env env_var :
    from_env env b env_var = Ok w → from_key_string b w
| by_keystore read_text decrypt path password text key :
    read_text path = Ok text → decrypt text password = Ok key → hex key ≠ "" →
    from_json b read_text decrypt path password = Ok w → from_key_string b w.

End WalletSources.

(** ** txmanager.py: a pipeline over its lifetime *)

Module Pipeline.
Import TransactionManager.

(** The manager after a series of [send_transaction] calls. *)
Fixpoint send_all (b : Backend) (self : t) (txs : list (gmap string pyval)) : t :=
  match txs with
  | [] => self
  | tx :: txs' => send_all b (send_transaction b self tx).1.1 txs'
  end.

(** The calls made by a series of [send_transaction] calls. *)
Fixpoint trace_all (b : Backend) (self : t) (txs : list (gmap string pyval))
    : list event :=
  match txs with
  | [] => []
  | tx :: txs' =>
    (send_transaction b self tx).2 ++ trace_all b (send_transaction b self tx).1.1 txs'
  end.

(** The requests handed to the signer, and the raw transactions handed
    to the node, in a sequence of calls. *)
Definition signed_requests (tr : list event) : list (gmap string pyval) :=
  omap (λ e, match e with Sign _ tx => Some tx | _ => None end) tr.

Definition submissions (tr : list event) : list HexBytes :=
  omap (λ e, match e with SendRaw raw => Some raw | _ => None end) tr.

End Pipeline.

(** * Facts about provider.py *)

Module ProviderFacts.
Import Provider.

Lemma py_index_inside {A} (l : list A) (i : Z) :
  0 ≤ i < Z.of_nat (length l) →
  ∃ x, l !! Z.to_nat i = Some x ∧ py_index l i = Ok x.
Proof.
  intros Hi. unfold py_index.
  destruct (Z.ltb_spec i 0) as [?|_]; [lia|].
  destruct (Z.leb_spec 0 i) as [_|?]; [|lia].
  destruct (Z.ltb_spec i (Z.of_nat (length l))) as [_|?]; [|lia].
  destruct (lookup_lt_is_Some_2 l (Z.to_nat i)) as [x Hx]; [lia|].
  exists x. by rewrite Hx.
Qed.

Lemma py_index_beyond {A} (l : list A) (i : Z) :
  Z.of_nat (length l) ≤ i → py_index l i = Raise IndexError.
Proof.
  intros Hi. unfold py_index.
  destruct (Z.ltb_spec i 0) as [?|_]; [lia|].
  destruct (Z.ltb_spec i (Z.of_nat (length l))) as [?|_]; [lia|].
  by rewrite andb_false_r.
Qed.

Lemma set_w3_twice self h h' : set_w3 (set_w3 self h) h' = set_w3 self h'.
Proof. reflexivity. Qed.

Lemma connect_fuel_same_config n fuel : ∀ self self' r,
  connect_fuel n fuel self = Some (self', r) → same_config self self'.
Proof.
  induction fuel as [|fuel IH]; intros self self' r; simpl; [done|].
  destruct (py_index _ _) as [u|e]; [|intros [= <- _]; by repeat split].
  unfold failover_with.
  destruct (n _); simpl;
    try (intros [= <- _]; by repeat split);
    (destruct (_ <? _); [|intros [= <- _]; by repeat split]);
    intros Hc; apply IH in Hc; destruct Hc as (?&?&?&?&?); by repeat split.
Qed.

(** Enough budget: [connect] always comes back. *)
Lemma connect_fuel_total n fuel : ∀ self,
  (Z.to_nat (Z.of_nat (length (rpc_urls self)) - _current_provider_index self) < fuel)%nat →
  is_Some (connect_fuel n fuel self).
Proof.
  induction fuel as [|fuel IH]; intros self Hf; [lia|]. simpl.
  destruct (py_index _ _) as [u|e]; [|by eexists].
  unfold failover_with.
  destruct (n _); simpl; try (by eexists);
    (destruct (Z.ltb_spec (_current_provider_index self)
                 (Z.of_nat (length (rpc_urls self)) - 1)); [|by eexists]);
    apply IH; simpl; lia.
Qed.

Lemma connect_total n self : is_Some (connect n self).
Proof. apply connect_fuel_total. unfold budget. lia. Qed.

Lemma failover_total n self : is_Some (failover n self).
Proof.
  unfold failover, failover_with.
  destruct (_ <? _); [apply connect_total|by eexists].
Qed.

(** The budget does not matter once it is enough. *)
Lemma connect_fuel_more n fuel : ∀ self out fuel',
  connect_fuel n fuel self = Some out → (fuel ≤ fuel')%nat →
  connect_fuel n fuel' self = Some out.
Proof.
  induction fuel as [|fuel IH]; intros self out fuel' H Hle; [done|].
  destruct fuel' as [|fuel']; [lia|]. simpl in *.
  destruct (py_index _ _) as [u|e]; [|done].
  unfold failover_with in *.
  destruct (n _); simpl in *; try done;
    (destruct (_ <? _); [|done]); eapply IH; eauto; lia.
Qed.

(** One unfolding of [connect], as the body reads. *)
Lemma connect_fuel_step n fuel self :
  connect_fuel n (S fuel) self =
  match py_index (rpc_urls self) (_current_provider_index self) with
  | Raise e => Some (self, Raise e)
  | Ok rpc_url =>
    match n (_current_provider_index self) with
    | OpenFails =>
        failover_with (connect_fuel n fuel) (λ s e, Some (s, Raise e)) self
    | ProbeFails =>
        failover_with (connect_fuel n fuel) (λ s e, Some (s, Raise e))
          (set_w3 self (new_web3 self rpc_url))
    | Live => Some (set_w3 self (new_web3 self rpc_url), Ok tt)
    end
  end.
Proof. reflexivity. Qed.

Lemma py_index_raises {A} (l : list A) i e : py_index l i = Raise e → e = IndexError.
Proof.
  unfold py_index. destruct (_ && _); [|congruence].
  destruct (l !! _); congruence.
Qed.

(** What a call can do, read off the code: stop on an index error, settle
    on a live endpoint, give up on the last endpoint, or move on. *)
Lemma connect_fuel_inv n fuel self self' r :
  connect_fuel n (S fuel) self = Some (self', r) →
  let i := _current_provider_index self in
  let last := Z.of_nat (length (rpc_urls self)) - 1 in
  (py_index (rpc_urls self) i = Raise IndexError ∧
     self' = self ∧ r = Raise IndexError) ∨
  (∃ u, py_index (rpc_urls self) i = Ok u ∧ n i = Live ∧
     self' = set_w3 self (new_web3 self u) ∧ r = Ok tt) ∨
  (∃ u, py_index (rpc_urls self) i = Ok u ∧ after_failed_attempt n self u self' ∧
     ¬ i < last ∧ r = Raise (ConnectionError "All RPC endpoints failed")) ∨
  (∃ u self1, py_index (rpc_urls self) i = Ok u ∧ after_failed_attempt n self u self1 ∧
     i < last ∧ connect_fuel n fuel (set_index self1 (i + 1)) = Some (self', r)).
Proof.
  rewrite connect_fuel_step. intros H i last.
  destruct (py_index _ _) as [u|e] eqn:Hu.
  - right. unfold failover_with in H. fold i last in H.
    destruct (n i) eqn:Hn.
    + destruct (Z.ltb_spec i last).
      * right; right. exists u, self. repeat split; try done. by left.
      * right; left. simplify_eq. exists u. repeat split; try done; [by left|lia].
    + simpl in H. fold i last in H. destruct (Z.ltb_spec i last).
      * right; right. exists u, (set_w3 self (new_web3 self u)).
        repeat split; try done. by right.
      * right; left. simplify_eq. exists u. repeat split; try done; [by right|lia].
    + left. simplify_eq. by exists u.
  - left. pose proof (py_index_raises _ _ _ Hu) as ->. by simplify_eq.
Qed.

Lemma after_failed_attempt_index n self u self1 :
  after_failed_attempt n self u self1 →
  _current_provider_index self1 = _current_provider_index self ∧
  rpc_urls self1 = rpc_urls self ∧
  (∀ v, new_web3 self1 v = new_web3 self v).
Proof. by intros [[_ ->]|[_ ->]]. Qed.

Lemma connect_fuel_index_mono n fuel : ∀ self self' r,
  connect_fuel n fuel self = Some (self', r) →
  _current_provider_index self ≤ _current_provider_index self'.
Proof.
  induction fuel as [|fuel IH]; intros self self' r H; [done|].
  apply connect_fuel_inv in H.
  destruct H as [(_&->&_)|[(u&_&_&->&_)|[(u&_&Ha&_)|(u&s1&_&Ha&_&Hc)]]];
    simpl; try lia.
  - apply after_failed_attempt_index in Ha. lia.
  - apply after_failed_attempt_index in Ha. apply IH in Hc. simpl in Hc. lia.
Qed.

(** First [N-1] endpoints fail, the last one is live. *)
Lemma connect_fuel_reaches_last n fuel : ∀ self,
  let N := Z.of_nat (length (rpc_urls self)) in
  0 ≤ _current_provider_index self < N →
  (∀ i, _current_provider_index self ≤ i < N - 1 → n i ≠ Live) →
  n (N - 1) = Live →
  (Z.to_nat (N - _current_provider_index self) < fuel)%nat →
  ∃ u, rpc_urls self !! Z.to_nat (N - 1) = Some u ∧
       connect_fuel n fuel self = Some (connected_at self (N - 1) u, Ok tt).
Proof.
  induction fuel as [|fuel IH]; intros self N Hi Hfail Hlive Hfuel; [lia|].
  destruct (py_index_inside (rpc_urls self) (_current_provider_index self) Hi)
    as (u & Hu & Hpy).
  destruct (Z.eq_dec (_current_provider_index self) (N - 1)) as [Heq|Hne].
  - exists u. rewrite <- Heq at 1. split; [done|].
    rewrite connect_fuel_step, Hpy, Heq. fold N. rewrite Hlive.
    rewrite <- Heq. by destruct self.
  - assert (Hn : n (_current_provider_index self) ≠ Live) by (apply Hfail; lia).
    rewrite connect_fuel_step, Hpy. unfold failover_with. simpl.
    destruct (Z.ltb_spec (_current_provider_index self)
                (Z.of_nat (length (rpc_urls self)) - 1)) as [_|?]; [|lia].
    destruct (n (_current_provider_index self)) eqn:Hat; [| |done].
    + destruct (IH (set_index self (_current_provider_index self + 1)))
        as (v & Hv & Hc); simpl;
        [lia | intros i ?; apply Hfail; lia | done | lia |].
      exists v. split; [done|]. by rewrite Hc.
    + destruct (IH (set_index (set_w3 self (new_web3 self u))
                      (_current_provider_index self + 1)))
        as (v & Hv & Hc); simpl;
        [lia | intros i ?; apply Hfail; lia | done | lia |].
      exists v. split; [done|]. by rewrite Hc.
Qed.

(** Every endpoint from the current one on fails. *)
Lemma connect_fuel_exhausts n fuel : ∀ self,
  let N := Z.of_nat (length (rpc_urls self)) in
  0 ≤ _current_provider_index self < N →
  (∀ i, _current_provider_index self ≤ i < N → n i ≠ Live) →
  (Z.to_nat (N - _current_provider_index self) < fuel)%nat →
  ∃ self', connect_fuel n fuel self =
             Some (self', Raise (ConnectionError "All RPC endpoints failed")) ∧
           _current_provider_index self' = N - 1.
Proof.
  induction fuel as [|fuel IH]; intros self N Hi Hfail Hfuel; [lia|].
  destruct (py_index_inside (rpc_urls self) (_current_provider_index self) Hi)
    as (u & Hu & Hpy).
  assert (Hn : n (_current_provider_index self) ≠ Live) by (apply Hfail; lia).
  rewrite connect_fuel_step, Hpy. unfold failover_with. simpl.
  destruct (Z.ltb_spec (_current_provider_index self)
              (Z.of_nat (length (rpc_urls self)) - 1)) as [Hlt|Hge].
  - destruct (n (_current_provider_index self)) eqn:Hat; [| |done].
    + destruct (IH (set_index self (_current_provider_index self + 1)))
        as (s' & Hc & Hidx); simpl;
        [lia | intros i ?; apply Hfail; lia | lia |].
      exists s'. by rewrite Hc.
    + destruct (IH (set_index (set_w3 self (new_web3 self u))
                      (_current_provider_index self + 1)))
        as (s' & Hc & Hidx); simpl;
        [lia | intros i ?; apply Hfail; lia | lia |].
      exists s'. by rewrite Hc.
  - destruct (n (_current_provider_index self)) eqn:Hat; [| |done];
      eexists; (split; [reflexivity|]); simpl; unfold N; lia.
Qed.

Lemma py_index_ok_range {A} (l : list A) i x :
  py_index l i = Ok x → 0 ≤ i → i < Z.of_nat (length l).
Proof.
  unfold py_index. intros H Hi.
  destruct (Z.ltb_spec i 0); [lia|].
  destruct (Z.leb_spec 0 i); [|lia].
  destruct (Z.ltb_spec i (Z.of_nat (length l))); [done|]. by simpl in H.
Qed.

Lemma connect_fuel_index_ok n fuel : ∀ self self' r,
  index_ok self → connect_fuel n fuel self = Some (self', r) → index_ok self'.
Proof.
  induction fuel as [|fuel IH]; intros self self' r [H0 Hh] H; [done|].
  apply connect_fuel_inv in H.
  destruct H as [(_&->&_)|[(u&Hu&_&->&_)|[(u&Hu&Ha&_)|(u&s1&Hu&Ha&Hlt&Hc)]]].
  - done.
  - split; simpl; [done|]. intros _. by eapply py_index_ok_range.
  - apply py_index_ok_range in Hu; [|done].
    destruct (after_failed_attempt_index _ _ _ _ Ha) as (Hi&Hl&_).
    split; rewrite ?Hi, ?Hl; done.
  - destruct (after_failed_attempt_index _ _ _ _ Ha) as (Hi&Hl&_).
    eapply IH; [|exact Hc]. split; simpl; [lia|]. rewrite Hl. lia.
Qed.

(** The three ways through the [w3] property. *)
Lemma w3_cases p n self :
  w3 p n self = Some (self, Ok (_w3 self)) ∨
  (∃ e, w3 p n self = Some (self, Raise e)) ∨
  w3 p n self = reconnect n self.
Proof.
  unfold w3. destruct (_w3 self); [|by right; right].
  destruct p as [[]|e]; [by left|by right; right|right; left; by exists e].
Qed.

Lemma run_index_ok o self self' : index_ok self → run o self = Some self' → index_ok self'.
Proof.
  intros Hok. destruct o as [n|n|alive n]; simpl.
  - unfold connect. destruct (connect_fuel _ _ _) as [[s r]|] eqn:Hc; [|done].
    intros [= <-]. by eapply connect_fuel_index_ok.
  - unfold failover, failover_with.
    destruct (Z.ltb_spec (_current_provider_index self)
                (Z.of_nat (length (rpc_urls self)) - 1)); simpl.
    + unfold connect. destruct (connect_fuel _ _ _) as [[s r]|] eqn:Hc; [|done].
      intros [= <-]. eapply connect_fuel_index_ok; [|exact Hc].
      destruct Hok as [? _]. split; simpl; lia.
    + by intros [= <-].
  - destruct (w3_cases alive n self) as [->|[[e ->]| ->]]; simpl;
      [by intros [= <-]|by intros [= <-]|].
    unfold reconnect, connect.
    destruct (connect_fuel _ _ _) as [[s r]|] eqn:Hc; [|done].
    simpl. intros [= <-]. by eapply connect_fuel_index_ok.
Qed.

Lemma reachable_index_ok self : reachable self → index_ok self.
Proof.
  induction 1 as [n a pt tmo rc c self r Hi|o self self' _ IH Hr].
  - unfold __init__, connect in Hi. eapply connect_fuel_index_ok; [|exact Hi].
    split; simpl; [lia|]. by intros [? ?].
  - by eapply run_index_ok.
Qed.

Lemma run_index_mono o self self' :
  run o self = Some self' →
  _current_provider_index self ≤ _current_provider_index self'.
Proof.
  destruct o as [n|n|alive n]; simpl.
  - unfold connect. destruct (connect_fuel _ _ _) as [[s r]|] eqn:Hc; [|done].
    intros [= <-]. by eapply connect_fuel_index_mono.
  - unfold failover, failover_with. destruct (_ <? _); simpl; [|intros [= <-]; lia].
    unfold connect. destruct (connect_fuel _ _ _) as [[s r]|] eqn:Hc; [|done].
    intros [= <-]. apply connect_fuel_index_mono in Hc. simpl in Hc. lia.
  - destruct (w3_cases alive n self) as [->|[[e ->]| ->]]; simpl;
      [intros [= <-]; lia|intros [= <-]; lia|].
    unfold reconnect, connect.
    destruct (connect_fuel _ _ _) as [[s r]|] eqn:Hc; [|done].
    simpl. intros [= <-]. by eapply connect_fuel_index_mono.
Qed.

Lemma run_total o self : is_Some (run o self).
Proof.
  destruct o as [n|n|alive n]; simpl.
  - destruct (connect_total n self) as [x ->]. by eexists.
  - destruct (failover_total n self) as [x ->]. by eexists.
  - destruct (w3_cases alive n self) as [->|[[e ->]| ->]]; [by eexists|by eexists|].
    unfold reconnect. destruct (connect_total n self) as [[s r] ->]. by eexists.
Qed.

Lemma run_all_total os : ∀ self, is_Some (run_all os self).
Proof.
  induction os as [|o os IH]; intros self; simpl; [by eexists|].
  destruct (run_total o self) as [s ->]. simpl. apply IH.
Qed.

Lemma run_all_index_mono os : ∀ self self',
  run_all os self = Some self' →
  _current_provider_index self ≤ _current_provider_index self'.
Proof.
  induction os as [|o os IH]; intros self self'; simpl.
  - intros [= <-]. lia.
  - destruct (run o self) as [s|] eqn:Hr; [|done]. simpl. intros Hrest.
    apply run_index_mono in Hr. apply IH in Hrest. lia.
Qed.

(** Which handle [connect] leaves behind. *)
Lemma connect_fuel_keeps_handle n fuel : ∀ self self' r,
  connect_fuel n fuel self = Some (self', r) →
  (∀ i, _current_provider_index self ≤ i ≤ _current_provider_index self' →
        n i = OpenFails) →
  _w3 self' = _w3 self.
Proof.
  induction fuel as [|fuel IH]; intros self self' r H Hall; [done|].
  pose proof (connect_fuel_index_mono _ _ _ _ _ H) as Hmono.
  apply connect_fuel_inv in H.
  destruct H as [(_&->&_)|[(u&_&Hl&->&_)|[(u&_&Ha&_)|(u&s1&_&Ha&_&Hc)]]].
  - done.
  - rewrite Hall in Hl; [done|simpl; lia].
  - destruct Ha as [[_ ->]|[Hp _]]; [done|]. rewrite Hall in Hp; [done|lia].
  - destruct Ha as [[_ ->]|[Hp _]]; [|rewrite Hall in Hp; [done|lia]].
    apply IH in Hc; [done|]. simpl. intros i ?. apply Hall. lia.
Qed.

Lemma connect_fuel_last_opened n fuel : ∀ self self' r i u,
  connect_fuel n fuel self = Some (self', r) →
  _current_provider_index self ≤ i ≤ _current_provider_index self' →
  n i ≠ OpenFails →
  (∀ j, i < j ≤ _current_provider_index self' → n j = OpenFails) →
  py_index (rpc_urls self) i = Ok u →
  _w3 self' = Some (new_web3 self u).
Proof.
  induction fuel as [|fuel IH]; intros self self' r i u H Hi Hopen Hlater Hu; [done|].
  apply connect_fuel_inv in H.
  destruct H as [(Hx&->&_)|[(v&Hv&_&->&_)|[(v&Hv&Ha&_)|(v&s1&Hv&Ha&Hlt&Hc)]]].
  - assert (i = _current_provider_index self) as -> by lia. congruence.
  - simpl in Hi. assert (i = _current_provider_index self) as -> by lia.
    simpl. congruence.
  - destruct (after_failed_attempt_index _ _ _ _ Ha) as (Heq&_&_).
    assert (i = _current_provider_index self) as -> by lia.
    destruct Ha as [[Ho _]|[_ ->]]; [done|]. simpl. congruence.
  - destruct (after_failed_attempt_index _ _ _ _ Ha) as (Heq&Hl&Hw).
    destruct (Z.eq_dec i (_current_provider_index self)) as [->|Hne].
    + apply connect_fuel_keeps_handle in Hc.
      * rewrite Hc. simpl. destruct Ha as [[Ho _]|[_ ->]]; [done|]. simpl. congruence.
      * simpl. intros j ?. apply Hlater. lia.
    + erewrite (IH _ _ _ i u Hc); simpl; try done; try lia.
      * by rewrite <- (Hw u).
      * by rewrite Hl.
Qed.

Lemma connect_fuel_ok_live n fuel : ∀ self self',
  connect_fuel n fuel self = Some (self', Ok tt) →
  ∃ u, py_index (rpc_urls self') (_current_provider_index self') = Ok u ∧
       n (_current_provider_index self') = Live ∧
       _w3 self' = Some (new_web3 self' u).
Proof.
  induction fuel as [|fuel IH]; intros self self' H; [done|].
  apply connect_fuel_inv in H.
  destruct H as [(_&_&?)|[(u&Hu&Hl&->&_)|[(u&_&_&_&?)|(u&s1&_&_&_&Hc)]]]; try done.
  - by exists u.
  - by eapply IH.
Qed.

Lemma run_all_reachable os : ∀ self self',
  reachable self → run_all os self = Some self' → reachable self'.
Proof.
  induction os as [|o os IH]; intros self self' Hr; simpl.
  - by intros [= <-].
  - destruct (run o self) as [s|] eqn:Ho; [|done]. simpl.
    apply IH. by eapply reach_step.
Qed.

(** C1 (as amended): for every non-empty endpoint list of length N, if the
    attempts on the first N-1 endpoints fail and the attempt on the Nth
    succeeds, the constructor's [connect()] returns normally with the
    handle of the Nth endpoint installed and the index at N-1; if the
    attempts on all N endpoints fail, it raises
    [ConnectionError "All RPC endpoints failed"] with the index at N-1. *)
Theorem connect_failover_scan (n : net) (urls : list string) pt tmo retries c :
  urls ≠ [] →
  let N := Z.of_nat (length urls) in
  let self := fresh (UrlList urls) pt tmo retries c in
  ((∀ i, 0 ≤ i < N - 1 → n i ≠ Live) → n (N - 1) = Live →
   ∃ u, urls !! Z.to_nat (N - 1) = Some u ∧
        __init__ n (UrlList urls) pt tmo retries c =
          Some (connected_at self (N - 1) u, Ok tt)) ∧
  ((∀ i, 0 ≤ i < N → n i ≠ Live) →
   ∃ self', __init__ n (UrlList urls) pt tmo retries c =
              Some (self', Raise (ConnectionError "All RPC endpoints failed")) ∧
            _current_provider_index self' = N - 1).
Proof.
  intros Hne N self.
  assert (0 < N) by (unfold N; destruct urls; [done|simpl; lia]).
  split.
  - intros Hfail Hlive. unfold __init__, connect.
    apply (connect_fuel_reaches_last n (budget self) self); simpl; try done;
      unfold budget; simpl; lia.
  - intros Hfail. unfold __init__, connect.
    apply (connect_fuel_exhausts n (budget self) self); simpl; try done;
      unfold budget; simpl; lia.
Qed.

Lemma connect_failover_scan_witness :
  two_urls ≠ [] ∧
  (∃ u, two_urls !! Z.to_nat (2 - 1) = Some u ∧
        __init__ bad_then_good (UrlList two_urls) HTTP 30 3 None =
          Some (connected_at (fresh (UrlList two_urls) HTTP 30 3 None) (2 - 1) u, Ok tt)) ∧
  (∃ self', __init__ all_dead (UrlList two_urls) HTTP 30 3 None =
              Some (self', Raise (ConnectionError "All RPC endpoints failed")) ∧
            _current_provider_index self' = 2 - 1).
Proof.
  assert (Hne : two_urls ≠ []) by done.
  split; [exact Hne|]. split.
  - apply (proj1 (connect_failover_scan bad_then_good two_urls HTTP 30 3 None Hne)).
    + intros i Hi. simpl in Hi. assert (i = 0) as -> by lia. done.
    + reflexivity.
  - apply (proj2 (connect_failover_scan all_dead two_urls HTTP 30 3 None Hne)).
    intros i _. done.
Defined.

(** C1, the claim as written, fails for the empty endpoint list: no
    attempt is made, so all of them fail, and [connect()] raises
    [IndexError], not the all-endpoints-failed error. *)
Lemma connect_empty_list_index_error :
  (∀ i, 0 ≤ i < Z.of_nat (length (@nil string)) → never_opens i ≠ Live) ∧
  __init__ never_opens (UrlList []) HTTP 30 3 None =
    Some (fresh (UrlList []) HTTP 30 3 None, Raise IndexError) ∧
  @Raise unit IndexError ≠ Raise (ConnectionError "All RPC endpoints failed").
Proof. split; [|split]; [intros i Hi; simpl in Hi; lia|reflexivity|done]. Qed.

(** C5: in every reachable state of an instance the index designates an
    endpoint whenever a handle is held, and over any sequence of
    [connect], [failover] and [w3] operations run from that state (each
    of which terminates) the index never decreases. *)
Theorem active_index_invariant (self : t) :
  reachable self →
  (is_Some (_w3 self) →
   0 ≤ _current_provider_index self < Z.of_nat (length (rpc_urls self))) ∧
  (∀ os, ∃ self', run_all os self = Some self' ∧ reachable self' ∧
     _current_provider_index self ≤ _current_provider_index self').
Proof.
  intros Hr. split.
  - intros Hh. destruct (reachable_index_ok _ Hr) as [H0 Hlt]. split; [done|by apply Hlt].
  - intros os. destruct (run_all_total os self) as [s Hs]. exists s.
    split; [done|]. split; [by eapply run_all_reachable|by eapply run_all_index_mono].
Qed.

Lemma active_index_invariant_witness :
  reachable dead_on_b ∧
  (is_Some (_w3 dead_on_b) →
   0 ≤ _current_provider_index dead_on_b < Z.of_nat (length (rpc_urls dead_on_b))) ∧
  (∀ os, ∃ self', run_all os dead_on_b = Some self' ∧ reachable self' ∧
     _current_provider_index dead_on_b ≤ _current_provider_index self').
Proof.
  assert (Hr : reachable dead_on_b).
  { apply (reach_step (OpConnect all_dead) on_a); [|reflexivity].
    by apply (reach_init all_live (UrlList ab_urls) HTTP 30 3 None on_a (Ok tt)). }
  split; [exact Hr|]. exact (active_index_invariant dead_on_b Hr).
Defined.

(** C9 (as amended): [connect()] stores the new handle as soon as the
    transport is opened, before the liveness check.  When it returns
    normally the stored handle is the one opened on the endpoint at the
    final index, which passed the check.  The handle held before the call
    is kept if every attempt of the call failed while opening the
    transport; otherwise the stored handle is that of the last attempted
    endpoint whose transport opened, whether or not it passed the check. *)
Theorem connect_stores_handle_before_probe (n : net) (self self' : t) (r : res unit) :
  connect n self = Some (self', r) →
  (r = Ok tt →
   ∃ u, py_index (rpc_urls self') (_current_provider_index self') = Ok u ∧
        n (_current_provider_index self') = Live ∧
        _w3 self' = Some (new_web3 self' u)) ∧
  ((∀ i, _current_provider_index self ≤ i ≤ _current_provider_index self' →
         n i = OpenFails) →
   _w3 self' = _w3 self) ∧
  (∀ i u, _current_provider_index self ≤ i ≤ _current_provider_index self' →
     n i ≠ OpenFails →
     (∀ j, i < j ≤ _current_provider_index self' → n j = OpenFails) →
     py_index (rpc_urls self) i = Ok u →
     _w3 self' = Some (new_web3 self u)).
Proof.
  unfold connect. intros H. split; [|split].
  - intros ->. by eapply connect_fuel_ok_live.
  - by eapply connect_fuel_keeps_handle.
  - intros i u. by eapply connect_fuel_last_opened.
Qed.

Lemma connect_stores_handle_before_probe_witness :
  connect all_dead on_a =
    Some (dead_on_b, Raise (ConnectionError "All RPC endpoints failed")) ∧
  _w3 dead_on_b = Some (new_web3 on_a "https://b.example").
Proof.
  assert (Hc : connect all_dead on_a =
    Some (dead_on_b, Raise (ConnectionError "All RPC endpoints failed")))
    by reflexivity.
  split; [exact Hc|].
  apply (proj2 (proj2 (connect_stores_handle_before_probe _ _ _ _ Hc)) 1).
  - simpl. lia.
  - done.
  - simpl. intros j Hj. lia.
  - reflexivity.
Defined.

(** C9, the claim as written, fails: a manager connected to the first
    endpoint whose handle later stops answering reconnects; both liveness
    checks fail, [connect()] raises, and the handle held is no longer the
    one that was installed but the one of the last failed attempt. *)
Lemma failed_attempt_replaces_handle :
  __init__ all_live (UrlList ab_urls) HTTP 30 3 None = Some (on_a, Ok tt) ∧
  connect all_dead on_a =
    Some (dead_on_b, Raise (ConnectionError "All RPC endpoints failed")) ∧
  _w3 on_a = Some (mkWeb3 "https://a.example" HTTP 30 false) ∧
  _w3 dead_on_b = Some (mkWeb3 "https://b.example" HTTP 30 false) ∧
  _w3 dead_on_b ≠ _w3 on_a.
Proof. repeat split; done. Qed.

End ProviderFacts.

(** * Facts about contract.py *)

Module ContractFacts.
Import Contract.

Lemma hasattr_true self k : hasattr self k = true ↔ is_Some (getattr self k).
Proof. unfold hasattr. apply bool_decide_eq_true. Qed.

Lemma hasattr_false self k : hasattr self k = false ↔ getattr self k = None.
Proof.
  unfold hasattr. rewrite bool_decide_eq_false, <- eq_None_not_Some. done.
Qed.

Lemma getattr_setattr_eq self k a : getattr (setattr self k a) k = Some a.
Proof. unfold getattr, setattr. by rewrite lookup_insert_eq. Qed.

Lemma getattr_setattr_ne self k k' a :
  k ≠ k' → getattr (setattr self k a) k' = getattr self k'.
Proof. intros Hne. unfold getattr, setattr. by rewrite lookup_insert_ne. Qed.

(** The three ways the loop body can leave: skip, bind, raise. *)
Lemma generate_step_inv self item self' :
  generate_step self item = Ok self' →
  self' = self ∨
  ∃ nm, is_function_named nm item = true ∧ hasattr self nm = false ∧
        self' = setattr self nm (AMethod (wrapper_of nm item)).
Proof.
  unfold generate_step, is_function_named, wrapper_of.
  destruct (not_function item); [intros [= <-]; by left|].
  destruct (item !! "name") as [[nm|]|] eqn:Hn; try done.
  destruct (hasattr self nm) eqn:Hh; [intros [= <-]; by left|].
  intros H. right. exists nm. rewrite bool_decide_eq_true_2 by done.
  repeat split; try done. destruct (is_view item); by simplify_eq.
Qed.

Lemma generate_step_skip self item nm :
  is_function_named nm item = true → hasattr self nm = true →
  generate_step self item = Ok self.
Proof.
  unfold is_function_named, generate_step.
  destruct (not_function item); [done|]. simpl.
  intros Hn%bool_decide_eq_true Hh. by rewrite Hn, Hh.
Qed.

Lemma generate_step_binds self item nm :
  is_function_named nm item = true → hasattr self nm = false →
  generate_step self item = Ok (setattr self nm (AMethod (wrapper_of nm item))).
Proof.
  unfold is_function_named, generate_step, wrapper_of.
  destruct (not_function item); [done|]. simpl.
  intros Hn%bool_decide_eq_true Hh. rewrite Hn, Hh. by destruct (is_view item).
Qed.

(** Attributes that exist are never touched. *)
Lemma generate_step_frame self item self' k :
  generate_step self item = Ok self' → hasattr self k = true →
  self' !! k = self !! k ∧ getattr self' k = getattr self k ∧ hasattr self' k = true.
Proof.
  intros H Hk. apply generate_step_inv in H.
  destruct H as [->|(nm&_&Hnm&->)]; [done|].
  assert (nm ≠ k) by (intros ->; congruence).
  unfold hasattr in *. rewrite getattr_setattr_ne by done.
  unfold setattr. by rewrite lookup_insert_ne.
Qed.

Lemma generate_over_frame items : ∀ self self' k,
  generate_over items self = Ok self' → hasattr self k = true →
  self' !! k = self !! k ∧ getattr self' k = getattr self k ∧ hasattr self' k = true.
Proof.
  induction items as [|item items IH]; intros self self' k; simpl.
  - by intros [= <-].
  - destruct (generate_step self item) as [s1|e] eqn:Hs; [|done]. simpl.
    intros Hrest Hk.
    destruct (generate_step_frame _ _ _ k Hs Hk) as (E1&E2&Hk1).
    destruct (IH _ _ k Hrest Hk1) as (E3&E4&Hk2).
    by rewrite E3, E4.
Qed.

Lemma generate_over_app l1 l2 self :
  generate_over (l1 ++ l2) self = (self1 ← generate_over l1 self; generate_over l2 self1).
Proof.
  revert self. induction l1 as [|item l1 IH]; intros self; simpl; [done|].
  destruct (generate_step self item) as [s1|e]; simpl; [apply IH|done].
Qed.


(** A schema whose function entries all carry a name never makes the
    generator raise. *)
Lemma generate_over_well_formed items : ∀ self,
  Forall (λ e, well_formed e = true) items → ∃ self', generate_over items self = Ok self'.
Proof.
  induction items as [|item items IH]; intros self Hall; simpl; [by eexists|].
  apply Forall_cons in Hall as [Hitem Hall].
  assert (∃ s1, generate_step self item = Ok s1) as [s1 ->].
  { unfold generate_step, well_formed in *.
    destruct (not_function item); [by eexists|]. simpl in Hitem.
    destruct (item !! "name") as [[nm|]|]; try done.
    destruct (hasattr self nm); [by eexists|].
    destruct (is_view item); by eexists. }
  simpl. by apply IH.
Qed.

Lemma init_unfold addr abi : __init__ addr abi = generate_over abi (before_generation addr abi).
Proof.
  unfold __init__, generate_methods, getattr, before_generation.
  rewrite lookup_insert_ne by done. by rewrite lookup_insert_eq.
Qed.



Lemma send_without_signer b nm args g gp v kw :
  send b nm args None g gp v kw = Raise missing_signer.
Proof. reflexivity. Qed.









(** Nothing the constructor stores before generation is a generated
    method. *)
Lemma before_generation_no_method addr abi k m :
  getattr (before_generation addr abi) k ≠ Some (AMethod m).
Proof.
  unfold getattr, before_generation.
  rewrite !lookup_insert, lookup_empty.
  repeat case_decide; done.
Qed.

Lemma before_generation_hasattr addr abi addr' abi' k :
  hasattr (before_generation addr abi) k = hasattr (before_generation addr' abi') k.
Proof.
  unfold hasattr, getattr, before_generation.
  rewrite !lookup_insert, !lookup_empty.
  repeat case_decide; try done; by rewrite !bool_decide_eq_true_2 by (by eexists).
Qed.

(** C10: a function entry whose name is already an attribute of the
    instance when generation starts (for instance [call], [send],
    [address], [abi], [provider], [estimate_gas], [generate_methods]) is
    skipped without an error; after construction the instance dictionary
    and the attribute found under that name are what they were before
    generation, and that attribute is not a generated method. *)
Theorem existing_attribute_shadows_entry addr abi self item nm :
  __init__ addr abi = Ok self →
  item ∈ abi →
  is_function_named nm item = true →
  hasattr (before_generation addr abi) nm = true →
  (∀ s, hasattr s nm = true → generate_step s item = Ok s) ∧
  self !! nm = before_generation addr abi !! nm ∧
  getattr self nm = getattr (before_generation addr abi) nm ∧
  (∀ m, getattr self nm ≠ Some (AMethod m)) ∧
  Forall (λ n, hasattr (before_generation addr abi) n = true)
    ["call"; "send"; "address"; "abi"; "provider"; "estimate_gas"; "generate_methods"].
Proof.
  rewrite init_unfold. intros Hinit _ Hitem Hhas.
  destruct (generate_over_frame _ _ _ nm Hinit Hhas) as (Hd&Hg&_).
  split; [intros s Hs; by apply (generate_step_skip _ _ nm)|].
  split; [done|]. split; [done|]. split.
  - intros m. rewrite Hg. apply before_generation_no_method.
  - repeat (apply Forall_cons_2;
            [by rewrite (before_generation_hasattr addr abi "" [])|]).
    apply Forall_nil_2.
Qed.

Lemma existing_attribute_shadows_entry_witness :
  __init__ "0xabc" erc777_abi = Ok (built erc777_abi) ∧
  fn_entry "send" "nonpayable" ∈ erc777_abi ∧
  built erc777_abi !! "send" = None ∧
  getattr (built erc777_abi) "send" = Some (AClass "send").
Proof.
  assert (Hinit : __init__ "0xabc" erc777_abi = Ok (built erc777_abi)) by reflexivity.
  assert (Hin : fn_entry "send" "nonpayable" ∈ erc777_abi).
  { apply elem_of_cons. right. apply elem_of_cons. by left. }
  destruct (existing_attribute_shadows_entry "0xabc" erc777_abi (built erc777_abi)
              (fn_entry "send" "nonpayable") "send" Hinit Hin eq_refl eq_refl)
    as (_ & Hd & Hg & _).
  split; [exact Hinit|]. split; [exact Hin|]. split.
  - rewrite Hd. reflexivity.
  - rewrite Hg. reflexivity.
Defined.

End ContractFacts.

(** * Facts about wallet.py *)

Module WalletFacts.
Import Wallet.

Lemma validate_key_spec key :
  (all_hex key = true → validate_key key = Ok tt) ∧
  (all_hex key = false → validate_key key = Raise invalid_key).
Proof. unfold validate_key. by destruct (all_hex key). Qed.

(** The validator looks at the characters only: any number of hex digits
    passes. *)
Lemma validate_key_ignores_length :
  validate_key "ab" = Ok tt ∧ is_hex_secret "ab" = false ∧
  validate_key ("0x" +:+ key64) = Raise invalid_key.
Proof. repeat split; reflexivity. Qed.

(** A wallet built from an explicit key has no [private_key]. *)
Lemma init_explicit_no_private_key b k w :
  k ≠ "" → __init__ b (Some k) = Ok w → private_key w = None.
Proof.
  intros Hk. unfold __init__. rewrite bool_decide_eq_true_2 by done.
  destruct (validate_key k); [|done]. simpl.
  destruct (from_key b k); [|done]. simpl. by intros [= <-].
Qed.

Lemma export_key_without_private_key b disk w password path fs :
  private_key w = None →
  export_key b disk w password path fs = (fs, Raise (AttributeError "private_key")).
Proof. intros H. unfold export_key, get_key. by rewrite H. Qed.

(** A generated wallet exports when the library and the file system
    answer. *)
Lemma export_key_generated b disk password path fs encrypted w :
  __init__ b None = Ok w →
  encrypt b (hex (acct_key (create b))) password = Ok encrypted →
  disk path encrypted = Written →
  export_key b disk w password path fs = (<[path := encrypted]> fs, Ok path).
Proof.
  intros [= <-] He Ho. unfold export_key, get_key. simpl. by rewrite He, Ho.
Qed.

Lemma checking_checks_key_length : checks_key_length checking.
Proof.
  intros k _ Hsize. simpl. unfold sized_from_key.
  rewrite bool_decide_eq_false_2 by done. by eexists.
Defined.

(** C7 (as amended): for every non-empty string given as the explicit
    private key, with an account library that refuses hexadecimal strings
    that are not 32 bytes long by a [ValueError], construction succeeds
    only if the string is a well-formed hex secret of the expected
    length, and raises a [ValueError] for every string that is not: the
    validator's ["Key must be a valid hexadecimal string."] when some
    character is not a hexadecimal digit, the library's own for
    hexadecimal digits of the wrong length. *)
Theorem explicit_key_must_be_hex_secret (b : Backend) (key : string) :
  checks_key_length b →
  key ≠ "" →
  (∀ w, __init__ b (Some key) = Ok w → is_hex_secret key = true) ∧
  (is_hex_secret key = false → ∃ msg, __init__ b (Some key) = Raise (ValueError msg)) ∧
  (all_hex key = false → __init__ b (Some key) = Raise invalid_key).
Proof.
  intros Hlib Hk.
  assert (Hinit : __init__ b (Some key) =
            (_ ← validate_key key; acct ← from_key b key;
             Ok (mkWallet acct None (acct_address acct)))).
  { unfold __init__. by rewrite bool_decide_eq_true_2. }
  assert (Hfail : is_hex_secret key = false →
                  ∃ msg, __init__ b (Some key) = Raise (ValueError msg)).
  { rewrite Hinit. unfold is_hex_secret, validate_key.
    destruct (all_hex key) eqn:Hh; simpl.
    - intros Hsize%bool_decide_eq_false.
      destruct (Hlib key Hh Hsize) as [msg Hm]. exists msg. by rewrite Hm.
    - intros _. by eexists. }
  split; [|split].
  - intros w Hw. destruct (is_hex_secret key) eqn:E; [done|].
    destruct (Hfail eq_refl) as [msg Hm]. congruence.
  - exact Hfail.
  - intros Hh. rewrite Hinit. unfold validate_key. by rewrite Hh.
Qed.

Lemma explicit_key_must_be_hex_secret_witness :
  checks_key_length checking ∧
  (__init__ checking (Some key64) = Ok from_key64 ∧ is_hex_secret key64 = true) ∧
  (is_hex_secret "ab" = false ∧
   ∃ msg, __init__ checking (Some "ab") = Raise (ValueError msg)) ∧
  __init__ checking (Some ("0x" +:+ key64)) = Raise invalid_key.
Proof.
  split; [exact checking_checks_key_length|]. split; [|split].
  - split; [reflexivity|].
    apply (proj1 (explicit_key_must_be_hex_secret checking key64
                    checking_checks_key_length ltac:(done)) from_key64).
    reflexivity.
  - split; [reflexivity|].
    apply (proj1 (proj2 (explicit_key_must_be_hex_secret checking "ab"
                           checking_checks_key_length ltac:(done)))).
    reflexivity.
  - apply (proj2 (proj2 (explicit_key_must_be_hex_secret checking ("0x" +:+ key64)
                           checking_checks_key_length ltac:(done)))).
    reflexivity.
Defined.

(** C7, the claim as written, fails for the empty string: it is not a hex
    secret, yet the constructor succeeds, with a freshly generated key,
    also with an account library that checks the length of a key. *)
Lemma empty_key_string_is_accepted :
  is_hex_secret "" = false ∧
  __init__ answering (Some "") = Ok generated ∧
  __init__ answering (Some "") = __init__ answering None ∧
  __init__ checking (Some "") = Ok generated.
Proof. repeat split; reflexivity. Qed.

(** C8: the export of a wallet built from an explicit key raises
    [AttributeError]: that branch of the constructor never sets
    [private_key], which [export_key] reads. *)
Lemma export_key_of_explicit_wallet_raises :
  __init__ answering (Some key64) = Ok from_key64 ∧
  export_key answering (λ _ _, Written) from_key64 "password" "/tmp/keystore.json" ∅
    = (∅, Raise (AttributeError "private_key")) ∧
  __init__ answering None = Ok generated ∧
  export_key answering (λ _ _, Written) generated "password" "/tmp/keystore.json" ∅
    = (<["/tmp/keystore.json" := "keystore:a11ce"]> ∅, Ok "/tmp/keystore.json").
Proof. repeat split; reflexivity. Qed.

End WalletFacts.

(** * Facts about txmanager.py *)

Module TransactionManagerFacts.
Import TransactionManager.

(** With an instance of the repository's own [Provider] the request is
    signed and then the lookup of [web3] raises. *)
Lemma send_transaction_provider_instance b self p tx signed_tx :
  provider self = ProviderInstance p →
  Wallet.sign_transaction b (wallet self) tx = Ok signed_tx →
  send_transaction b self tx =
    (self, Raise (AttributeError "web3"), [Sign (Wallet.account (wallet self)) tx]).
Proof. intros Hp Hs. unfold send_transaction. by rewrite Hs, Hp. Qed.





(** C4 (as amended): after a successful [send_transaction] the value
    returned is the hex form of the hash the node returned for the signed
    request, and the manager, its pending-transaction map included, is
    unchanged: no entry is registered. *)
Theorem send_returns_hash_registers_nothing (b : Backend) (self self' : t)
    (tx : gmap string pyval) (h : string) (tr : list event) :
  send_transaction b self tx = (self', Ok h, tr) →
  self' = self ∧
  pending_txs self' = pending_txs self ∧
  ∃ signed_tx tx_hash,
    Wallet.sign_transaction b (wallet self) tx = Ok signed_tx ∧
    send_raw_transaction b (rawTransaction signed_tx) = Ok tx_hash ∧
    h = hex tx_hash.
Proof.
  unfold send_transaction.
  destruct (Wallet.sign_transaction _ _ _) as [sg|e]; [|done].
  destruct (provider self); simpl; [done|].
  destruct (send_raw_transaction b (rawTransaction sg)) as [hb|e] eqn:Hh; simpl; [|done].
  intros [= <- <- <-]. repeat split. by exists sg, hb.
Qed.

Lemma send_returns_hash_registers_nothing_witness :
  send_transaction answering manager transfer_request =
    (manager, Ok "0xhash:signed-by:0xA11ce",
     [Sign alice transfer_request; SendRaw (mkHexBytes "signed-by:0xA11ce")]) ∧
  pending_txs manager = ∅.
Proof.
  assert (Hs : send_transaction answering manager transfer_request =
    (manager, Ok "0xhash:signed-by:0xA11ce",
     [Sign alice transfer_request; SendRaw (mkHexBytes "signed-by:0xA11ce")]))
    by reflexivity.
  split; [exact Hs|].
  exact (proj1 (proj2 (send_returns_hash_registers_nothing _ _ _ _ _ _ Hs))).
Defined.

(** C4, the claim as written, fails: after a successful send the
    pending-transaction map has no entry under the returned hash. *)
Lemma send_registers_no_pending_entry :
  send_transaction answering manager transfer_request =
    (manager, Ok "0xhash:signed-by:0xA11ce",
     [Sign alice transfer_request; SendRaw (mkHexBytes "signed-by:0xA11ce")]) ∧
  pending_txs manager !! "0xhash:signed-by:0xA11ce" = None.
Proof. split; reflexivity. Qed.

End TransactionManagerFacts.

(** * Further facts about provider.py *)

Module ProviderMoreFacts.
Import Provider ProviderFacts.

Lemma connect_fuel_first_live n fuel : ∀ self k,
  let N := Z.of_nat (length (rpc_urls self)) in
  0 ≤ _current_provider_index self ≤ k → k < N →
  (∀ i, _current_provider_index self ≤ i < k → n i ≠ Live) →
  n k = Live →
  (Z.to_nat (N - _current_provider_index self) < fuel)%nat →
  ∃ u, rpc_urls self !! Z.to_nat k = Some u ∧
       connect_fuel n fuel self = Some (connected_at self k u, Ok tt).
Proof.
  induction fuel as [|fuel IH]; intros self k N Hi Hk Hfail Hlive Hfuel; [lia|].
  destruct (py_index_inside (rpc_urls self) (_current_provider_index self))
    as (u & Hu & Hpy); [lia|].
  destruct (Z.eq_dec (_current_provider_index self) k) as [Heq|Hne].
  - exists u. rewrite <- Heq at 1. split; [done|].
    rewrite connect_fuel_step, Hpy, Heq, Hlive. rewrite <- Heq. by destruct self.
  - assert (Hn : n (_current_provider_index self) ≠ Live) by (apply Hfail; lia).
    rewrite connect_fuel_step, Hpy. unfold failover_with. simpl.
    destruct (Z.ltb_spec (_current_provider_index self)
                (Z.of_nat (length (rpc_urls self)) - 1)) as [_|?]; [|lia].
    destruct (n (_current_provider_index self)) eqn:Hat; [| |done].
    + destruct (IH (set_index self (_current_provider_index self + 1)) k)
        as (v & Hv & Hc); simpl;
        [lia | lia | intros i ?; apply Hfail; lia | done | lia |].
      exists v. split; [done|]. by rewrite Hc.
    + destruct (IH (set_index (set_w3 self (new_web3 self u))
                      (_current_provider_index self + 1)) k)
        as (v & Hv & Hc); simpl;
        [lia | lia | intros i ?; apply Hfail; lia | done | lia |].
      exists v. split; [done|]. by rewrite Hc.
Qed.

(** X1: [connect()] settles on the first live endpoint at or after the
    current index: the endpoints before it are tried and passed over,
    those after it are not reached. *)
Theorem connect_settles_on_first_live (n : net) (self : t) (k : Z) :
  0 ≤ _current_provider_index self ≤ k →
  k < Z.of_nat (length (rpc_urls self)) →
  (∀ i, _current_provider_index self ≤ i < k → n i ≠ Live) →
  n k = Live →
  ∃ u, rpc_urls self !! Z.to_nat k = Some u ∧
       connect n self = Some (connected_at self k u, Ok tt).
Proof.
  intros Hi Hk Hfail Hlive. unfold connect.
  apply connect_fuel_first_live; try done. unfold budget. lia.
Qed.

Lemma connect_settles_on_first_live_witness :
  ∃ u, rpc_urls (fresh (UrlList ["a"; "b"; "c"]) HTTP 30 3 None) !! Z.to_nat 1 = Some u ∧
       connect (λ i, if i =? 0 then OpenFails else Live)
               (fresh (UrlList ["a"; "b"; "c"]) HTTP 30 3 None)
       = Some (connected_at (fresh (UrlList ["a"; "b"; "c"]) HTTP 30 3 None) 1 u, Ok tt).
Proof.
  apply (connect_settles_on_first_live (λ i, if i =? 0 then OpenFails else Live)
           (fresh (UrlList ["a"; "b"; "c"]) HTTP 30 3 None) 1).
  - simpl. lia.
  - simpl. lia.
  - simpl. intros i Hi. assert (i = 0) as -> by lia. done.
  - reflexivity.
Defined.

Lemma reconnect_ok_held n self self' h :
  reconnect n self = Some (self', Ok h) →
  ∃ handle, h = Some handle ∧ _w3 self' = Some handle ∧
    n (_current_provider_index self') = Live ∧
    py_index (rpc_urls self') (_current_provider_index self') = Ok (w3_url handle).
Proof.
  unfold reconnect, connect. destruct (connect_fuel _ _ _) as [[s r]|] eqn:Hc; [|done].
  simpl. destruct r as [[]|e]; simpl; [|done]. intros [= <- <-].
  destruct (connect_fuel_ok_live _ _ _ _ Hc) as (u & Hu & Hl & Hw).
  exists (new_web3 s u). by repeat split.
Qed.

Lemma w3_ok_held p n self self' h :
  w3 p n self = Some (self', Ok h) →
  ∃ handle, h = Some handle ∧ _w3 self' = Some handle.
Proof.
  unfold w3. destruct (_w3 self) as [h0|] eqn:Hh.
  - destruct p as [[]|e]; [intros [= <- <-]; by exists h0| |done].
    intros Hr. destruct (reconnect_ok_held _ _ _ _ Hr) as (handle&?&?&_). by exists handle.
  - intros Hr. destruct (reconnect_ok_held _ _ _ _ Hr) as (handle&?&?&_). by exists handle.
Qed.

(** X2: when the [w3] property returns, it returns the handle the
    instance holds, never [None].  If a handle was held and answered the
    probe, the instance is untouched; otherwise the handle is the one
    just opened on the endpoint at the final index, which passed the
    liveness check. *)
Theorem w3_returns_held_handle (p : probe) (n : net) (self self' : t)
    (h : option Web3) :
  w3 p n self = Some (self', Ok h) →
  ∃ handle, h = Some handle ∧ _w3 self' = Some handle ∧
    (p = Answers true → is_Some (_w3 self) → self' = self) ∧
    (p = Answers false ∨ _w3 self = None →
     n (_current_provider_index self') = Live ∧
     py_index (rpc_urls self') (_current_provider_index self') = Ok (w3_url handle)).
Proof.
  unfold w3. destruct (_w3 self) as [h0|] eqn:Hh.
  - destruct p as [[]|e]; [| |done].
    + intros [= <- <-]. exists h0.
      split; [done|]. split; [done|]. split; [done|]. by intros [?|?].
    + intros Hr. destruct (reconnect_ok_held _ _ _ _ Hr) as (handle&?&?&?&?).
      exists handle. split; [done|]. split; [done|]. split; [done|]. by intros _.
  - intros Hr. destruct (reconnect_ok_held _ _ _ _ Hr) as (handle&?&?&?&?).
    exists handle. split; [done|]. split; [done|]. split; [by intros _ [? ?]|]. by intros _.
Qed.

Lemma w3_returns_held_handle_witness :
  ∃ handle, Some (mkWeb3 "https://a.example" HTTP 30 false) = Some handle ∧
    _w3 on_a = Some handle ∧
    (Answers true = Answers true → is_Some (_w3 on_a) → on_a = on_a) ∧
    (Answers true = Answers false ∨ _w3 on_a = None →
     all_dead (_current_provider_index on_a) = Live ∧
     py_index (rpc_urls on_a) (_current_provider_index on_a) = Ok (w3_url handle)).
Proof.
  apply (w3_returns_held_handle (Answers true) all_dead on_a on_a). reflexivity.
Defined.

Import ProviderInvariants.

Lemma py_index_ok_lookup {A} (l : list A) i x :
  py_index l i = Ok x → 0 ≤ i → l !! Z.to_nat i = Some x.
Proof.
  unfold py_index. intros H Hi.
  destruct (Z.ltb_spec i 0); [lia|].
  destruct (_ && _); [|done]. destruct (l !! Z.to_nat i); by simplify_eq.
Qed.

Lemma same_config_new_web3 a b u : same_config a b → new_web3 b u = new_web3 a u.
Proof. intros (_&Hp&Ht&_&Hc). unfold new_web3. by rewrite Hp, Ht, Hc. Qed.

Lemma connect_fuel_handle_origin n fuel : ∀ self self' r,
  0 ≤ _current_provider_index self → handle_origin self →
  connect_fuel n fuel self = Some (self', r) → handle_origin self'.
Proof.
  induction fuel as [|fuel IH]; intros self self' r H0 HP H; [done|].
  assert (Hset : ∀ u, py_index (rpc_urls self) (_current_provider_index self) = Ok u →
                      handle_origin (set_w3 self (new_web3 self u))).
  { intros u Hu h [= <-]. exists (_current_provider_index self), u. simpl.
    split; [lia|]. split; [by apply py_index_ok_lookup|done]. }
  apply connect_fuel_inv in H.
  destruct H as [(_&->&_)|[(u&Hu&_&->&_)|[(u&Hu&Ha&_)|(u&s1&Hu&Ha&Hlt&Hc)]]].
  - done.
  - by apply Hset.
  - destruct Ha as [[_ ->]|[_ ->]]; [done|by apply Hset].
  - eapply IH; [| |exact Hc].
    + destruct (after_failed_attempt_index _ _ _ _ Ha) as (Hi&_&_). simpl. lia.
    + assert (HP1 : handle_origin s1)
        by (destruct Ha as [[_ ->]|[_ ->]]; [done|by apply Hset]).
      destruct (after_failed_attempt_index _ _ _ _ Ha) as (Hi&_&_).
      intros h Hh. destruct (HP1 h Hh) as (j&v&Hj&Hv&->).
      exists j, v. simpl. split; [lia|]. done.
Qed.

Lemma connect_fuel_index_bounded n fuel : ∀ self self' r,
  index_bounded self →
  connect_fuel n fuel self = Some (self', r) → index_bounded self'.
Proof.
  induction fuel as [|fuel IH]; intros self self' r HB H; [done|].
  apply connect_fuel_inv in H.
  destruct H as [(_&->&_)|[(u&_&_&->&_)|[(u&_&Ha&_)|(u&s1&_&Ha&Hlt&Hc)]]];
    try done.
  - destruct Ha as [[_ ->]|[_ ->]]; done.
  - eapply IH; [|exact Hc].
    destruct (after_failed_attempt_index _ _ _ _ Ha) as (Hi&Hl&_).
    unfold index_bounded in *. simpl. rewrite Hl. lia.
Qed.

(** Any operation keeps a property that [connect] keeps and that does not
    depend on the handle when the index moves. *)
Lemma run_keeps (P : t → Prop) :
  (∀ n fuel self self' r, P self → connect_fuel n fuel self = Some (self', r) → P self') →
  (∀ self, P self →
     _current_provider_index self < Z.of_nat (length (rpc_urls self)) - 1 →
     P (set_index self (_current_provider_index self + 1))) →
  ∀ o self self', P self → run o self = Some self' → P self'.
Proof.
  intros Hconn Hnext o self self' HP.
  destruct o as [n|n|alive n]; simpl.
  - unfold connect. destruct (connect_fuel _ _ _) as [[s r]|] eqn:Hc; [|done].
    intros [= <-]. by eapply Hconn.
  - unfold failover, failover_with.
    destruct (Z.ltb_spec (_current_provider_index self)
                (Z.of_nat (length (rpc_urls self)) - 1)); simpl.
    + unfold connect. destruct (connect_fuel _ _ _) as [[s r]|] eqn:Hc; [|done].
      intros [= <-]. eapply Hconn; [|exact Hc]. by apply Hnext.
    + by intros [= <-].
  - destruct (w3_cases alive n self) as [->|[[e ->]| ->]]; simpl;
      [by intros [= <-]|by intros [= <-]|].
    unfold reconnect, connect.
    destruct (connect_fuel _ _ _) as [[s r]|] eqn:Hc; [|done].
    simpl. intros [= <-]. by eapply Hconn.
Qed.

Lemma lifetime_invariant_connect n fuel self self' r :
  lifetime_invariant self → connect_fuel n fuel self = Some (self', r) →
  lifetime_invariant self'.
Proof.
  intros [HB HO] Hc. split.
  - by eapply connect_fuel_index_bounded.
  - eapply connect_fuel_handle_origin; [|done|exact Hc]. by destruct HB.
Qed.

Lemma reachable_lifetime_invariant self : reachable self → lifetime_invariant self.
Proof.
  induction 1 as [n a pt tmo rc c self r Hi|o self self' _ IH Hr].
  - unfold __init__, connect in Hi. eapply lifetime_invariant_connect; [|exact Hi].
    split; [unfold index_bounded; simpl; lia|by intros h].
  - eapply (run_keeps lifetime_invariant); [| |exact IH|exact Hr].
    + intros. by eapply lifetime_invariant_connect.
    + intros s [HB HO] Hlt. split.
      * unfold index_bounded in *. simpl. lia.
      * intros h Hh. destruct (HO h Hh) as (j&u&Hj&Hu&->).
        exists j, u. simpl. split; [lia|done].
Qed.

(** X3: in every reachable state the handle held, if any, is one this
    instance opened on one of its own endpoints, at the current index or
    an earlier one, with the instance's transport kind, timeout and
    proof-of-authority setting. *)
Theorem held_handle_comes_from_endpoint_list (self : t) (h : Web3) :
  reachable self → _w3 self = Some h →
  ∃ j u, 0 ≤ j ≤ _current_provider_index self ∧
         rpc_urls self !! Z.to_nat j = Some u ∧
         h = mkWeb3 u (provider_type self) (timeout self) (needs_poa (chain self)).
Proof.
  intros Hr Hh. destruct (reachable_lifetime_invariant _ Hr) as [_ HO].
  exact (HO h Hh).
Qed.

Lemma reachable_dead_on_b : reachable dead_on_b.
Proof.
  apply (reach_step (OpConnect all_dead) on_a); [|reflexivity].
  by apply (reach_init all_live (UrlList ab_urls) HTTP 30 3 None on_a (Ok tt)).
Defined.

Lemma held_handle_comes_from_endpoint_list_witness :
  ∃ j u, 0 ≤ j ≤ _current_provider_index dead_on_b ∧
         rpc_urls dead_on_b !! Z.to_nat j = Some u ∧
         mkWeb3 "https://b.example" HTTP 30 false
           = mkWeb3 u (provider_type dead_on_b) (timeout dead_on_b)
               (needs_poa (chain dead_on_b)).
Proof.
  apply (held_handle_comes_from_endpoint_list dead_on_b); [|reflexivity].
  apply reachable_dead_on_b.
Defined.

(** X4: [failover()] either raises at once, leaving the instance as it
    was (when the index is at the last endpoint or beyond), or moves the
    index strictly forward; it never retries the endpoint it was on. *)
Theorem failover_gives_up_or_advances (n : net) (self self' : t) (r : res unit) :
  failover n self = Some (self', r) →
  (Z.of_nat (length (rpc_urls self)) - 1 ≤ _current_provider_index self ∧
   self' = self ∧ r = Raise (ConnectionError "All RPC endpoints failed")) ∨
  (_current_provider_index self < Z.of_nat (length (rpc_urls self)) - 1 ∧
   _current_provider_index self < _current_provider_index self').
Proof.
  unfold failover, failover_with.
  destruct (Z.ltb_spec (_current_provider_index self)
              (Z.of_nat (length (rpc_urls self)) - 1)) as [Hlt|Hge].
  - intros Hc. right. split; [done|].
    apply connect_fuel_index_mono in Hc. simpl in Hc. lia.
  - intros [= <- <-]. by left.
Qed.

Lemma failover_gives_up_or_advances_witness :
  (Z.of_nat (length (rpc_urls on_a)) - 1 ≤ _current_provider_index on_a ∧
   dead_on_b = on_a ∧
   @Raise unit (ConnectionError "All RPC endpoints failed")
     = Raise (ConnectionError "All RPC endpoints failed")) ∨
  (_current_provider_index on_a < Z.of_nat (length (rpc_urls on_a)) - 1 ∧
   _current_provider_index on_a < _current_provider_index dead_on_b).
Proof.
  apply (failover_gives_up_or_advances all_dead on_a dead_on_b). reflexivity.
Defined.

Lemma run_same_urls o self self' : run o self = Some self' → rpc_urls self' = rpc_urls self.
Proof.
  intros Hr. symmetry. revert Hr.
  apply (run_keeps (λ s, rpc_urls self = rpc_urls s)); [| |done].
  - intros n fuel s s' r Hs Hc. apply connect_fuel_same_config in Hc as [Hu _]. congruence.
  - by intros s Hs _.
Qed.

Lemma connect_at_last n self :
  0 ≤ _current_provider_index self →
  _current_provider_index self = Z.of_nat (length (rpc_urls self)) - 1 →
  (∃ s, connect n self = Some (s, Ok tt)) ↔ n (_current_provider_index self) = Live.
Proof.
  intros H0 Hlast.
  destruct (py_index_inside (rpc_urls self) (_current_provider_index self))
    as (u & Hu & Hpy); [lia|].
  unfold connect, budget. rewrite connect_fuel_step, Hpy. unfold failover_with. simpl.
  destruct (Z.ltb_spec (_current_provider_index self)
              (Z.of_nat (length (rpc_urls self)) - 1)); [lia|].
  destruct (n _); split; try done; try (by intros [s [=]]). by eexists.
Qed.

(** X5: there is no way back from the last endpoint.  Once a reachable
    instance has its index on the last endpoint, every later [connect],
    [failover] and [w3] leaves it there, and a later [connect] succeeds
    exactly when that one endpoint is live, whatever the state of the
    earlier ones. *)
Theorem last_endpoint_is_final (self : t) (os : list op) (self' : t) :
  reachable self →
  rpc_urls self ≠ [] →
  _current_provider_index self = Z.of_nat (length (rpc_urls self)) - 1 →
  run_all os self = Some self' →
  _current_provider_index self' = _current_provider_index self ∧
  rpc_urls self' = rpc_urls self ∧
  ∀ n, (∃ s, connect n self' = Some (s, Ok tt)) ↔ n (_current_provider_index self) = Live.
Proof.
  intros Hr Hne Hlast Hrun.
  assert (Hr' : reachable self') by (by eapply run_all_reachable).
  assert (Hu : rpc_urls self' = rpc_urls self).
  { clear Hr Hr' Hne Hlast. revert self Hrun.
    induction os as [|o os IH]; intros self; simpl; [by intros [= <-]|].
    destruct (run o self) as [s|] eqn:Ho; [|done]. simpl. intros Hrest.
    rewrite (IH _ Hrest). by eapply run_same_urls. }
  pose proof (run_all_index_mono _ _ _ Hrun) as Hmono.
  destruct (reachable_lifetime_invariant _ Hr') as [[_ Hb] _]. rewrite Hu in Hb.
  assert (0 < Z.of_nat (length (rpc_urls self))) by (destruct (rpc_urls self); [done|simpl; lia]).
  assert (Hi : _current_provider_index self' = _current_provider_index self) by lia.
  split; [done|]. split; [done|]. intros n. rewrite <- Hi.
  apply connect_at_last; [lia|]. rewrite Hu. lia.
Qed.

Lemma last_endpoint_is_final_witness :
  run_all later_operations stuck_on_c = Some on_c ∧
  _current_provider_index on_c = _current_provider_index stuck_on_c ∧
  rpc_urls on_c = rpc_urls stuck_on_c ∧
  ∀ n, (∃ s, connect n on_c = Some (s, Ok tt))
       ↔ n (_current_provider_index stuck_on_c) = Live.
Proof.
  assert (Hrun : run_all later_operations stuck_on_c = Some on_c) by reflexivity.
  split; [exact Hrun|].
  apply (last_endpoint_is_final stuck_on_c later_operations on_c);
    [|done|reflexivity|exact Hrun].
  by apply (reach_init c_never_opens (UrlList abc_urls) HTTP 30 3 None stuck_on_c
              (Raise (ConnectionError "All RPC endpoints failed"))).
Defined.

End ProviderMoreFacts.

(** * Facts about the provider factories and reads *)

Module FactoriesFacts.
Import Provider ProviderFacts Factories.

Lemma cls_one_url (n : net) (u : string) (c : option Chain) :
  cls n (OneUrl u) c =
    Some (match n 0 with
          | Live => Ok (mkProvider [u] HTTP 30 3 c 0
                          (Some (mkWeb3 u HTTP 30 (needs_poa c))))
          | _ => Raise (ConnectionError "All RPC endpoints failed")
          end).
Proof.
  unfold cls, __init__, connect, budget. simpl.
  unfold failover_with. simpl. by destruct (n 0).
Qed.

Lemma dict_get_default_rpcs (c : Chain) : is_Some (dict_get DEFAULT_RPCS c).
Proof. destruct c; by eexists. Qed.

Lemma auto_one_endpoint env n c : ∃ u, auto env n c = one_endpoint n u (Some c).
Proof.
  unfold auto. destruct (first_set env _) as [u|]; [exists u; apply cls_one_url|].
  destruct (dict_get_default_rpcs c) as [u ->]. exists u. apply cls_one_url.
Qed.

(** X6: every factory builds a provider with exactly one endpoint, so
    there is nothing to fail over to.  [infura], [alchemy], [quicknode],
    [local], [auto] and [get_provider] return an instance, at index 0 and
    holding that endpoint's handle, exactly when the endpoint is live,
    and raise [ConnectionError "All RPC endpoints failed"] otherwise;
    [from_env] does the same when its variable is set to a non-empty
    string and raises [ValueError] naming the variable, before any
    connection, when it is not.  No factory ends in [IndexError] or
    [KeyError]. *)
Theorem factories_build_one_endpoint (n : net) :
  (∀ env var_name,
     from_env env n var_name =
       match truthy (getenv env var_name) with
       | Some u => one_endpoint n u None
       | None => Some (Raise (ValueError
                                ("Environment variable " +:+ var_name +:+ " not set")))
       end) ∧
  (∀ api_key c, ∃ u, infura n api_key c = one_endpoint n u (Some c)) ∧
  (∀ api_key c, ∃ u, alchemy n api_key c = one_endpoint n u (Some c)) ∧
  (∀ endpoint, quicknode n endpoint = one_endpoint n endpoint None) ∧
  (∀ port, ∃ u, local n port = one_endpoint n u (Some LOCAL)) ∧
  (∀ env c, ∃ u, auto env n c = one_endpoint n u (Some c)) ∧
  (∀ env rpc_url c, ∃ u, get_provider env n rpc_url c = one_endpoint n u (Some c)).
Proof.
  split; [|split; [|split; [|split; [|split; [|split]]]]].
  - intros env v. unfold from_env.
    destruct (truthy (getenv env v)); [apply cls_one_url|done].
  - intros k c. eexists. apply cls_one_url.
  - intros k c. eexists. apply cls_one_url.
  - intros e. apply cls_one_url.
  - intros port. eexists. apply cls_one_url.
  - intros env c. apply auto_one_endpoint.
  - intros env url c. unfold get_provider.
    destruct (truthy url) as [u|]; [exists u; apply cls_one_url|apply auto_one_endpoint].
Qed.

(** X7: [infura] and [alchemy] build the URL from the network name of
    the chain and fall back to Ethereum mainnet for every chain outside
    their tables, while still handing the chain on to the constructor:
    for such a chain the instance talks to the mainnet endpoint under the
    other chain's settings (for BSC, with the proof-of-authority
    middleware injected). *)
Theorem infura_alchemy_fall_back_to_mainnet (n : net) (api_key : string) (c : Chain) :
  c ∉ [POLYGON; ARBITRUM; OPTIMISM] →
  infura n api_key c
    = cls n (OneUrl ("https://mainnet.infura.io/v3/" +:+ api_key)) (Some c) ∧
  alchemy n api_key c
    = cls n (OneUrl ("https://eth-mainnet.g.alchemy.com/v2/" +:+ api_key)) (Some c) ∧
  (n 0 = Live →
   infura n api_key c =
     Some (Ok (mkProvider ["https://mainnet.infura.io/v3/" +:+ api_key] HTTP 30 3
                 (Some c) 0
                 (Some (mkWeb3 ("https://mainnet.infura.io/v3/" +:+ api_key)
                          HTTP 30 (needs_poa (Some c))))))).
Proof.
  intros Hc.
  assert (Hi : infura n api_key c
    = cls n (OneUrl ("https://mainnet.infura.io/v3/" +:+ api_key)) (Some c)).
  { destruct c; try done; exfalso; apply Hc; set_solver. }
  split; [done|]. split.
  - destruct c; try done; exfalso; apply Hc; set_solver.
  - intros Hl. by rewrite Hi, cls_one_url, Hl.
Qed.

Lemma infura_alchemy_fall_back_to_mainnet_witness :
  infura all_live "KEY" BSC =
    Some (Ok (mkProvider ["https://mainnet.infura.io/v3/KEY"] HTTP 30 3 (Some BSC) 0
                (Some (mkWeb3 "https://mainnet.infura.io/v3/KEY" HTTP 30 true)))).
Proof.
  apply (infura_alchemy_fall_back_to_mainnet all_live "KEY" BSC); [|reflexivity].
  intros H. repeat (apply elem_of_cons in H as [H|H]; [done|]). by apply elem_of_nil in H.
Defined.

(** X8: [auto] takes the first of [RPC_URL], [WEB3_PROVIDER_URI] and
    [ETH_RPC_URL] that is set to a non-empty string (an empty value counts
    as unset) and otherwise the built-in public endpoint of the chain,
    which exists for every chain; [get_provider] with a non-empty URL
    ignores the environment, and with no URL or an empty one is [auto]. *)
Theorem auto_takes_first_set_variable (env : gmap string string) (n : net) (c : Chain) :
  let var v := truthy (getenv env v) in
  (∀ u, var "RPC_URL" = Some u → auto env n c = cls n (OneUrl u) (Some c)) ∧
  (∀ u, var "RPC_URL" = None → var "WEB3_PROVIDER_URI" = Some u →
        auto env n c = cls n (OneUrl u) (Some c)) ∧
  (∀ u, var "RPC_URL" = None → var "WEB3_PROVIDER_URI" = None →
        var "ETH_RPC_URL" = Some u → auto env n c = cls n (OneUrl u) (Some c)) ∧
  (var "RPC_URL" = None → var "WEB3_PROVIDER_URI" = None → var "ETH_RPC_URL" = None →
   ∃ u, dict_get DEFAULT_RPCS c = Some u ∧ auto env n c = cls n (OneUrl u) (Some c)) ∧
  (∀ u, u ≠ "" → get_provider env n (Some u) c = cls n (OneUrl u) (Some c)) ∧
  get_provider env n (Some "") c = auto env n c ∧
  get_provider env n None c = auto env n c.
Proof.
  intros var. unfold auto, get_provider. cbn [first_set truthy]. fold (var "RPC_URL").
  fold (var "WEB3_PROVIDER_URI"). fold (var "ETH_RPC_URL").
  split; [by intros u ->|]. split; [by intros u -> ->|].
  split; [by intros u -> -> ->|]. split.
  - intros -> -> ->. destruct (dict_get_default_rpcs c) as [u Hu].
    exists u. by rewrite Hu.
  - split; [|done]. intros u Hu. by rewrite bool_decide_eq_false_2.
Qed.

Lemma auto_takes_first_set_variable_witness :
  auto env_two all_live POLYGON
    = cls all_live (OneUrl "https://second.example") (Some POLYGON) ∧
  (∃ u, dict_get DEFAULT_RPCS AVALANCHE = Some u ∧
        auto ∅ all_live AVALANCHE = cls all_live (OneUrl u) (Some AVALANCHE)).
Proof.
  split.
  - apply (proj1 (proj2 (auto_takes_first_set_variable env_two all_live POLYGON)));
      reflexivity.
  - apply (proj1 (proj2 (proj2 (proj2
             (auto_takes_first_set_variable ∅ all_live AVALANCHE))))); reflexivity.
Defined.

Lemma connect_fuel_raises n fuel : ∀ self self' e,
  connect_fuel n fuel self = Some (self', Raise e) →
  e = IndexError ∨ e = ConnectionError "All RPC endpoints failed".
Proof.
  induction fuel as [|fuel IH]; intros self self' e Hc; [done|].
  apply connect_fuel_inv in Hc.
  destruct Hc as [(_&_&He)|[(u&_&_&_&He)|[(u&_&_&_&He)|(u&s1&_&_&_&Hc)]]].
  - left. congruence.
  - done.
  - right. congruence.
  - by eapply IH.
Qed.

(** X9: a read through the provider has three outcomes.  It is answered
    by the node on the handle the instance holds after the [w3] property
    has run; or the liveness probe on the held handle raises, and the
    read raises that exception with the instance untouched and no
    reconnection; or the reconnection inside [w3] fails, and the read
    raises that error ([IndexError] or the all-endpoints-failed
    [ConnectionError]).  In the last two the node is not asked; a read
    never trips over a missing handle. *)
Theorem read_is_answered_on_held_handle {A} (p : probe) (n : net)
    (query : Web3 → res A) (self self' : t) (r : res A) :
  read p n query self = Some (self', r) →
  (∃ handle, _w3 self' = Some handle ∧ r = query handle) ∨
  (∃ e, r = Raise e ∧ p = ProbeRaises e ∧ is_Some (_w3 self) ∧ self' = self) ∨
  (∃ e, r = Raise e ∧ connect n self = Some (self', Raise e) ∧
        (e = IndexError ∨ e = ConnectionError "All RPC endpoints failed")).
Proof.
  unfold read. destruct (w3 p n self) as [[s rw]|] eqn:Hw; [|done]. simpl.
  intros [= <- <-]. destruct rw as [h|e].
  - left. destruct (ProviderMoreFacts.w3_ok_held _ _ _ _ _ Hw)
      as (handle & -> & Hh). by exists handle.
  - right. simpl. unfold w3 in Hw.
    assert (Hre : reconnect n self = Some (s, Raise e) →
                  connect n self = Some (s, Raise e) ∧
                  (e = IndexError ∨ e = ConnectionError "All RPC endpoints failed")).
    { unfold reconnect. destruct (connect n self) as [[s' rc]|] eqn:Hc; [|done]. simpl.
      destruct rc as [[]|e']; simpl; [done|]. intros [= <- <-]. split; [done|].
      by eapply connect_fuel_raises. }
    destruct (_w3 self) as [h0|] eqn:Hh.
    + destruct p as [[]|e0]; [done| |].
      * right. exists e. split; [done|]. by apply Hre.
      * left. simplify_eq. exists e. split; [done|]. split; [done|]. by split.
    + right. exists e. split; [done|]. by apply Hre.
Qed.

Lemma read_is_answered_on_held_handle_witness :
  (∃ handle, _w3 on_a = Some handle ∧ Ok 17 = (λ _ : Web3, Ok 17) handle) ∨
  (∃ e, Ok 17 = Raise e ∧ Answers true = ProbeRaises e ∧ is_Some (_w3 on_a) ∧ on_a = on_a) ∨
  (∃ e, Ok 17 = Raise e ∧ connect all_dead on_a = Some (on_a, Raise e) ∧
        (e = IndexError ∨ e = ConnectionError "All RPC endpoints failed")).
Proof.
  apply (read_is_answered_on_held_handle (Answers true) all_dead
           (λ _, Ok 17) on_a on_a (Ok 17)).
  reflexivity.
Defined.

End FactoriesFacts.

(** * Further facts about contract.py *)

Module ContractMoreFacts.
Import Contract ContractFacts.

(** Where a generated method found after the loop comes from. *)
Lemma generate_over_origin nm m items : ∀ self self',
  generate_over items self = Ok self' →
  getattr self' nm = Some (AMethod m) →
  getattr self nm = Some (AMethod m) ∨
  (hasattr self nm = false ∧
   ∃ pre item post, items = (pre ++ item :: post)%list ∧
     is_function_named nm item = true ∧
     Forall (λ e, is_function_named nm e = false) pre ∧
     m = wrapper_of nm item).
Proof.
  induction items as [|item items IH]; intros self self'; simpl.
  - intros [= <-] Hg. by left.
  - destruct (generate_step self item) as [s1|e] eqn:Hs; [|done]. simpl.
    intros Hrest Hg. destruct (IH _ _ Hrest Hg) as [Hg1|(Hfree1&pre&it&post&->&Hit&Hpre&->)].
    + apply generate_step_inv in Hs. destruct Hs as [->|(k&Hk&Hfree&->)]; [by left|].
      destruct (decide (k = nm)) as [->|Hne].
      * right. split; [done|]. exists [], item, items.
        rewrite getattr_setattr_eq in Hg1. simplify_eq. by repeat split.
      * left. by rewrite getattr_setattr_ne in Hg1.
    + destruct (hasattr self nm) eqn:Hfree.
      { destruct (generate_step_frame _ _ _ nm Hs Hfree) as (_&_&?). congruence. }
      destruct (is_function_named nm item) eqn:Hitem.
      { rewrite (generate_step_binds _ _ nm Hitem Hfree) in Hs. simplify_eq.
        apply hasattr_false in Hfree1. by rewrite getattr_setattr_eq in Hfree1. }
      right. split; [done|]. exists (item :: pre), it, post.
      repeat split; try done. by apply Forall_cons_2.
Qed.

Lemma generated_method_origin addr abi self nm m :
  __init__ addr abi = Ok self →
  getattr self nm = Some (AMethod m) →
  ∃ pre item post, abi = (pre ++ item :: post)%list ∧
    is_function_named nm item = true ∧
    Forall (λ e, is_function_named nm e = false) pre ∧
    m = (if is_view item then ViewMethod nm else TxMethod nm).
Proof.
  rewrite init_unfold. intros Hinit Hg.
  destruct (generate_over_origin nm m _ _ _ Hinit Hg) as [Hb|(_&H)]; [|exact H].
  by apply before_generation_no_method in Hb.
Qed.

(** X10: every generated method of a constructed instance comes from the
    schema: it is the wrapper of the first function entry of that name,
    it carries that name, and it is the read wrapper or the write wrapper
    according to that entry's mutability.  Events, constructors and
    later entries never produce one. *)
Theorem generated_methods_come_from_schema addr abi self nm m :
  __init__ addr abi = Ok self →
  getattr self nm = Some (AMethod m) →
  ∃ pre item post, abi = (pre ++ item :: post)%list ∧
    is_function_named nm item = true ∧
    Forall (λ e, is_function_named nm e = false) pre ∧
    m = (if is_view item then ViewMethod nm else TxMethod nm).
Proof. apply generated_method_origin. Qed.

Lemma generated_methods_come_from_schema_witness :
  ∃ pre item post, erc20_abi = (pre ++ item :: post)%list ∧
    is_function_named "transfer" item = true ∧
    Forall (λ e, is_function_named "transfer" e = false) pre ∧
    TxMethod "transfer" = (if is_view item then ViewMethod "transfer" else TxMethod "transfer").
Proof.
  apply (generated_methods_come_from_schema "0xabc" erc20_abi (built erc20_abi));
    reflexivity.
Defined.

Lemma generate_step_malformed self item :
  well_formed item = false →
  generate_step self item =
    Raise (match item !! "name" with None => KeyError "name" | Some _ => TypeError end).
Proof.
  unfold well_formed, generate_step. destruct (not_function item); [done|]. simpl.
  by destruct (item !! "name") as [[?|]|].
Qed.

Lemma generate_over_ok_well_formed items : ∀ self self',
  generate_over items self = Ok self' → Forall (λ e, well_formed e = true) items.
Proof.
  induction items as [|item items IH]; intros self self'; simpl; [by constructor|].
  destruct (generate_step self item) as [s1|e] eqn:Hs; [|done]. simpl. intros Hrest.
  constructor; [|by eapply IH].
  destruct (well_formed item) eqn:Hw; [done|].
  by rewrite generate_step_malformed in Hs.
Qed.

(** X11: construction succeeds exactly when every function entry of the
    schema carries its name as a string; otherwise it raises at the first
    entry that does not, [KeyError "name"] when the name is missing and
    [TypeError] when it is not a string, whatever follows. *)
Theorem construction_needs_named_functions (addr : string)
    (abi : list (gmap string json)) :
  ((∃ self, __init__ addr abi = Ok self) ↔ Forall (λ e, well_formed e = true) abi) ∧
  (∀ pre item post, abi = (pre ++ item :: post)%list →
     Forall (λ e, well_formed e = true) pre → well_formed item = false →
     __init__ addr abi =
       Raise (match item !! "name" with None => KeyError "name" | Some _ => TypeError end)).
Proof.
  rewrite init_unfold. split; [split|].
  - intros [self Hs]. by eapply generate_over_ok_well_formed.
  - apply generate_over_well_formed.
  - intros pre item post -> Hpre Hitem. rewrite generate_over_app.
    destruct (generate_over_well_formed pre (before_generation addr (pre ++ item :: post)) Hpre)
      as [s1 ->]. simpl. by rewrite generate_step_malformed.
Qed.

Lemma construction_needs_named_functions_witness :
  __init__ "0xabc" [fn_entry "f" "view"; <["type" := JStr "function"]> ∅; fn_entry "g" "view"]
    = Raise (KeyError "name").
Proof.
  assert (Hpre : Forall (λ e, well_formed e = true) [fn_entry "f" "view"])
    by (apply Forall_cons_2; [reflexivity|apply Forall_nil_2]).
  exact (proj2 (construction_needs_named_functions "0xabc"
                  [fn_entry "f" "view"; <["type" := JStr "function"]> ∅; fn_entry "g" "view"])
           [fn_entry "f" "view"] (<["type" := JStr "function"]> ∅) [fn_entry "g" "view"]
           eq_refl Hpre eq_refl).
Defined.

(** After the loop every function entry finds its name taken. *)
Lemma generate_over_names_taken items : ∀ self self',
  generate_over items self = Ok self' →
  Forall (λ item, ∀ nm, is_function_named nm item = true → hasattr self' nm = true) items.
Proof.
  induction items as [|item items IH]; intros self self'; simpl; [by constructor|].
  destruct (generate_step self item) as [s1|e] eqn:Hs; [|done]. simpl. intros Hrest.
  constructor; [|by eapply IH].
  intros nm Hnm. apply (generate_over_frame _ _ _ nm Hrest).
  destruct (hasattr self nm) eqn:Hh.
  - by apply (generate_step_frame _ _ _ nm Hs).
  - rewrite (generate_step_binds _ _ nm Hnm Hh) in Hs. simplify_eq.
    apply hasattr_true. rewrite getattr_setattr_eq. by eexists.
Qed.

Lemma is_function_named_name item :
  not_function item = false → well_formed item = true →
  ∃ nm, is_function_named nm item = true.
Proof.
  unfold well_formed, is_function_named. intros ->. simpl.
  destruct (item !! "name") as [[nm|]|]; try done. intros _. exists nm.
  by rewrite bool_decide_eq_true_2.
Qed.

Lemma generate_over_fixpoint items : ∀ self,
  Forall (λ e, well_formed e = true) items →
  Forall (λ item, ∀ nm, is_function_named nm item = true → hasattr self nm = true) items →
  generate_over items self = Ok self.
Proof.
  induction items as [|item items IH]; intros self Hwf Hall; simpl; [done|].
  apply Forall_cons in Hwf as [Hw Hwf]. apply Forall_cons in Hall as [Hitem Hall].
  assert (generate_step self item = Ok self) as ->.
  { destruct (not_function item) eqn:Hnf.
    - unfold generate_step. by rewrite Hnf.
    - destruct (is_function_named_name _ Hnf Hw) as [nm Hnm].
      apply (generate_step_skip _ _ nm); [done|by apply Hitem]. }
  simpl. by apply IH.
Qed.

(** X12: [generate_methods] is idempotent: run again on the instance it
    produced, it binds nothing and returns the same instance. *)
Theorem generate_methods_idempotent (self self' : gmap string attr) :
  generate_methods self = Ok self' → generate_methods self' = Ok self'.
Proof.
  unfold generate_methods.
  destruct (getattr self "abi") as [a|] eqn:Ha; [|done].
  destruct a as [| items | | | |]; try done. intros Hgen.
  destruct (generate_over_frame _ _ _ "abi" Hgen) as (_&Hg&_).
  { apply hasattr_true. rewrite Ha. by eexists. }
  rewrite Hg, Ha. apply generate_over_fixpoint.
  - by eapply generate_over_ok_well_formed.
  - by eapply generate_over_names_taken.
Qed.

Lemma generate_methods_idempotent_witness :
  generate_methods (built overloaded_abi) = Ok (built overloaded_abi).
Proof.
  apply (generate_methods_idempotent (before_generation "0xabc" overloaded_abi)).
  reflexivity.
Defined.

(** X13: after construction every function entry of the schema finds an
    attribute under its name: a generated wrapper carrying that very
    name, or the attribute that was there before generation. *)
Theorem every_function_name_resolves addr abi self item nm :
  __init__ addr abi = Ok self →
  item ∈ abi →
  is_function_named nm item = true →
  getattr self nm = Some (AMethod (ViewMethod nm)) ∨
  getattr self nm = Some (AMethod (TxMethod nm)) ∨
  (is_Some (getattr self nm) ∧ getattr self nm = getattr (before_generation addr abi) nm).
Proof.
  intros Hinit Hin Hnm.
  assert (Hh : hasattr self nm = true).
  { rewrite init_unfold in Hinit.
    pose proof (generate_over_names_taken _ _ _ Hinit) as Hall.
    rewrite Forall_forall in Hall. by apply (Hall item). }
  apply hasattr_true in Hh as [a Ha].
  destruct (hasattr (before_generation addr abi) nm) eqn:Hb.
  - right; right. rewrite init_unfold in Hinit.
    destruct (generate_over_frame _ _ _ nm Hinit Hb) as (_&Hg&_).
    split; [by rewrite Ha|done].
  - rewrite init_unfold in Hinit.
    assert (∃ m, a = AMethod m) as [m ->].
    { clear Hin Hnm item. apply hasattr_false in Hb. revert Hinit Ha Hb.
      generalize (before_generation addr abi) as s0. generalize abi as items.
      induction items as [|it items IH]; intros s0; simpl.
      - intros [= <-] Ha Hb. congruence.
      - destruct (generate_step s0 it) as [s1|e] eqn:Hs; [|done]. simpl.
        intros Hrest Ha Hb. apply generate_step_inv in Hs.
        destruct Hs as [->|(k&_&_&->)]; [by eapply IH|].
        destruct (decide (k = nm)) as [->|Hne].
        + destruct (generate_over_frame _ _ _ nm Hrest) as (_&Hg&_).
          { apply hasattr_true. rewrite getattr_setattr_eq. by eexists. }
          rewrite Hg, getattr_setattr_eq in Ha. simplify_eq. by eexists.
        + eapply IH; [exact Hrest|exact Ha|]. by rewrite getattr_setattr_ne. }
    rewrite <- init_unfold in Hinit.
    destruct (generated_method_origin addr abi self nm m Hinit Ha)
      as (_&it&_&_&_&_&->).
    destruct (is_view it); auto.
Qed.

Lemma every_function_name_resolves_witness :
  getattr (built erc777_abi) "send" = Some (AMethod (ViewMethod "send")) ∨
  getattr (built erc777_abi) "send" = Some (AMethod (TxMethod "send")) ∨
  (is_Some (getattr (built erc777_abi) "send") ∧
   getattr (built erc777_abi) "send"
     = getattr (before_generation "0xabc" erc777_abi) "send").
Proof.
  apply (every_function_name_resolves "0xabc" erc777_abi (built erc777_abi)
           (fn_entry "send" "view") "send"); [reflexivity| |reflexivity].
  do 2 (apply elem_of_cons; right). apply elem_of_cons. by left.
Defined.

End ContractMoreFacts.

(** * Further facts about wallet.py and utils/validators.py *)

Module WalletMoreFacts.
Import Wallet WalletSources.

Lemma hex_alphabet_spec (c : ascii) :
  bool_decide (c ∈ hex_alphabet) = true ↔ hex_char c.
Proof.
  destruct c as [[] [] [] [] [] [] [] []]; unfold hex_char;
    (split; intros H;
     [ vm_compute in H; first [discriminate H | (clear H; vm_compute; lia)]
     | first [ by vm_compute | (exfalso; vm_compute in H; lia) ] ]).
Qed.

Lemma all_hex_spec (key : string) :
  all_hex key = true ↔ Forall hex_char (list_ascii_of_string key).
Proof.
  unfold all_hex. induction (list_ascii_of_string key) as [|c l IH]; simpl.
  - split; [by constructor|done].
  - rewrite andb_true_iff, Forall_cons, IH, hex_alphabet_spec. done.
Qed.

(** X16: [validate_key] accepts a string exactly when each of its
    characters is one of [0-9], [a-f], [A-F], whatever its length (the
    empty string included), and raises [ValueError] otherwise; in
    particular it rejects every key written with the [0x] prefix. *)
Theorem validate_key_accepts_hex_digits_only (key : string) :
  (validate_key key = Ok tt ↔ Forall hex_char (list_ascii_of_string key)) ∧
  (validate_key key ≠ Ok tt → validate_key key = Raise invalid_key) ∧
  validate_key ("0x" +:+ key) = Raise invalid_key.
Proof.
  unfold validate_key. split; [|split].
  - rewrite <- all_hex_spec. by destruct (all_hex key).
  - by destruct (all_hex key).
  - reflexivity.
Qed.

Lemma validate_key_accepts_hex_digits_only_witness :
  validate_key "zz" = Raise invalid_key.
Proof.
  apply (proj1 (proj2 (validate_key_accepts_hex_digits_only "zz"))). done.
Defined.

(** X17: [export_key] touches the file system at the destination only.
    When it returns normally it returns the destination, the wallet had
    its [private_key] set, and the destination holds the encryption of
    that key under the password.  When it raises, either the file system
    is as it was, or the failure came after the destination was opened
    for writing, and the destination is left created or truncated with
    whatever had been written, its former content gone. *)
Theorem export_key_writes_destination_only (b : Backend) (disk : string → string → write)
    (w : t) (password path : string) (fs fs' : gmap string string) (r : res string) :
  export_key b disk w password path fs = (fs', r) →
  (∀ p, p ≠ path → fs' !! p = fs !! p) ∧
  (∀ p, r = Ok p →
     p = path ∧
     ∃ k encrypted, private_key w = Some k ∧ encrypt b k password = Ok encrypted ∧
                    disk path encrypted = Written ∧ fs' !! path = Some encrypted) ∧
  (∀ e, r = Raise e →
     fs' = fs ∨
     ∃ k encrypted partial,
       private_key w = Some k ∧ encrypt b k password = Ok encrypted ∧
       disk path encrypted = DumpFails partial e ∧ fs' !! path = Some partial).
Proof.
  unfold export_key, get_key.
  destruct (private_key w) as [k|]; [|intros [= <- <-]; repeat split; auto; done].
  destruct (encrypt b k password) as [enc|e] eqn:He;
    [|intros [= <- <-]; repeat split; auto; done].
  destruct (disk path enc) as [|partial e|] eqn:Hd; intros [= <- <-].
  - repeat split; auto; done.
  - split; [intros p Hp; by rewrite lookup_insert_ne|]. split; [done|].
    intros e' [= <-]. right. exists k, enc, partial. by rewrite lookup_insert_eq.
  - split; [intros p Hp; by rewrite lookup_insert_ne|]. split; [|done].
    intros p [= <-]. split; [done|]. exists k, enc. by rewrite lookup_insert_eq.
Qed.

Lemma export_key_writes_destination_only_witness :
  export_key answering (λ _ _, DumpFails "" OSError) generated "password"
    "/tmp/keystore.json"
    (<["/tmp/keystore.json" := "old keystore"]> (<["/tmp/other" := "x"]> ∅))
  = (<["/tmp/keystore.json" := ""]>
       (<["/tmp/keystore.json" := "old keystore"]> (<["/tmp/other" := "x"]> ∅)),
     Raise OSError) ∧
  (<["/tmp/keystore.json" := ""]>
     (<["/tmp/keystore.json" := "old keystore"]> (<["/tmp/other" := "x"]> ∅)
      : gmap string string)) !! "/tmp/other"
  = (<["/tmp/keystore.json" := "old keystore"]> (<["/tmp/other" := "x"]> ∅)
      : gmap string string) !! "/tmp/other".
Proof.
  assert (He : export_key answering (λ _ _, DumpFails "" OSError) generated "password"
                 "/tmp/keystore.json"
                 (<["/tmp/keystore.json" := "old keystore"]> (<["/tmp/other" := "x"]> ∅))
               = (<["/tmp/keystore.json" := ""]>
                    (<["/tmp/keystore.json" := "old keystore"]>
                       (<["/tmp/other" := "x"]> ∅)),
                  Raise OSError)) by reflexivity.
  split; [exact He|].
  apply (proj1 (export_key_writes_destination_only _ _ _ _ _ _ _ _ He)). done.
Defined.

Lemma init_key_string b k w :
  k ≠ "" → __init__ b (Some k) = Ok w →
  all_hex k = true ∧ from_key b k = Ok (account w) ∧
  address w = acct_address (account w) ∧ private_key w = None.
Proof.
  intros Hk. unfold __init__, validate_key. rewrite bool_decide_eq_true_2 by done.
  destruct (all_hex k); [|done]. simpl.
  destruct (from_key b k) as [a|]; [|done]. simpl. by intros [= <-].
Qed.

Lemma truthy_Some o s : Factories.truthy o = Some s → o = Some s ∧ s ≠ "".
Proof.
  unfold Factories.truthy. destruct o as [x|]; [|done].
  destruct (decide (x = "")) as [->|Hne]; [done|].
  rewrite bool_decide_eq_false_2 by done. by intros [= <-].
Qed.

Lemma from_env_ok env b env_var w :
  from_env env b env_var = Ok w →
  ∃ k, env !! env_var = Some k ∧ k ≠ "" ∧ all_hex k = true ∧
       from_key b k = Ok (account w) ∧
       address w = acct_address (account w) ∧ private_key w = None.
Proof.
  unfold from_env, Factories.getenv.
  destruct (Factories.truthy (env !! env_var)) as [k|] eqn:Ht; [|done].
  apply truthy_Some in Ht as [Hk Hne]. intros Hw. exists k.
  split; [done|]. split; [done|]. by apply init_key_string.
Qed.

(** X18: [from_env] raises [ValueError] when the variable is unset or
    empty and never generates a key: a wallet it returns was built by the
    account library from the variable's value, a non-empty string of hex
    digits, and has no [private_key] attribute. *)
Theorem wallet_from_env_uses_the_variable (env : gmap string string) (b : Backend)
    (env_var : string) :
  (Factories.truthy (env !! env_var) = None →
   from_env env b env_var
     = Raise (ValueError ("Environment variable " +:+ env_var +:+ " not set"))) ∧
  (∀ w, from_env env b env_var = Ok w →
     ∃ k, env !! env_var = Some k ∧ k ≠ "" ∧ all_hex k = true ∧
          from_key b k = Ok (account w) ∧
          address w = acct_address (account w) ∧ private_key w = None).
Proof.
  split.
  - unfold from_env, Factories.getenv. by intros ->.
  - intros w. apply from_env_ok.
Qed.

Lemma wallet_from_env_uses_the_variable_witness :
  from_env (<["WALLET_PRIVATE_KEY" := ""]> ∅) answering "WALLET_PRIVATE_KEY"
    = Raise (ValueError "Environment variable WALLET_PRIVATE_KEY not set") ∧
  ∃ k, (<["WALLET_PRIVATE_KEY" := key64]> ∅ : gmap string string) !! "WALLET_PRIVATE_KEY"
         = Some k ∧ k ≠ "" ∧ all_hex k = true ∧
       from_key answering k = Ok (account from_key64) ∧
       address from_key64 = acct_address (account from_key64) ∧
       private_key from_key64 = None.
Proof.
  split.
  - apply (proj1 (wallet_from_env_uses_the_variable (<["WALLET_PRIVATE_KEY" := ""]> ∅)
                    answering "WALLET_PRIVATE_KEY")). reflexivity.
  - apply (proj2 (wallet_from_env_uses_the_variable
                    (<["WALLET_PRIVATE_KEY" := key64]> ∅) answering "WALLET_PRIVATE_KEY")).
    reflexivity.
Defined.

(** X19: a wallet obtained from a key string, through the constructor,
    [from_env] or [from_json], has no [private_key] attribute: [get_key]
    and [export_key] raise [AttributeError] and the file system is left
    untouched.  Only a wallet with a generated key can be exported. *)
Theorem key_string_wallets_cannot_export (b : Backend) (w : t) :
  from_key_string b w →
  get_key w = Raise (AttributeError "private_key") ∧
  ∀ disk password path fs,
    export_key b disk w password path fs
      = (fs, Raise (AttributeError "private_key")).
Proof.
  intros Hw. assert (Hp : private_key w = None).
  { destruct Hw as [k Hk Hi|env v He|rd dec path pw text key Hr Hd Hk Hj].
    - by apply (init_key_string b k).
    - by destruct (from_env_ok env b v w He) as (?&?&?&?&?&?&?).
    - unfold from_json in Hj. rewrite Hr in Hj. simpl in Hj. rewrite Hd in Hj.
      simpl in Hj. by apply (init_key_string b (hex key)). }
  unfold export_key, get_key. rewrite Hp. by split.
Qed.

Lemma key_string_wallets_cannot_export_witness :
  get_key from_key64 = Raise (AttributeError "private_key") ∧
  ∀ disk password path fs,
    export_key answering disk from_key64 password path fs
      = (fs, Raise (AttributeError "private_key")).
Proof.
  apply (key_string_wallets_cannot_export answering from_key64).
  apply (by_constructor answering from_key64 key64); [done|reflexivity].
Defined.

End WalletMoreFacts.

(** * Further facts about txmanager.py *)

Module PipelineFacts.
Import TransactionManager Pipeline.

Lemma send_transaction_self b self tx : (send_transaction b self tx).1.1 = self.
Proof.
  unfold send_transaction.
  destruct (Wallet.sign_transaction _ _ _); [|done]. by destruct (web3_eth _ _).
Qed.

Lemma send_all_self b txs : ∀ self, send_all b self txs = self.
Proof.
  induction txs as [|tx txs IH]; intros self; simpl; [done|].
  by rewrite send_transaction_self.
Qed.

(** X20: with an instance of the repository's own [Provider] class as
    provider, [send_transaction] signs the request and then raises: it
    never returns a hash and never submits anything; and [get_nonce]
    raises [AttributeError] whenever it needs the node. *)
Theorem repository_provider_never_submits (b : Backend) (self : t) (p : Provider.t) :
  provider self = ProviderInstance p →
  (∀ tx h, (send_transaction b self tx).1.2 ≠ Ok h) ∧
  (∀ tx, submissions (send_transaction b self tx).2 = []) ∧
  (∀ tx signed_tx, Wallet.sign_transaction b (wallet self) tx = Ok signed_tx →
     send_transaction b self tx
       = (self, Raise (AttributeError "web3"), [Sign (Wallet.account (wallet self)) tx])) ∧
  (auto_nonce self = true →
   get_nonce b self false = (Raise (AttributeError "web3"), [])).
Proof.
  intros Hp. unfold send_transaction, get_nonce. rewrite Hp. simpl.
  split; [|split; [|split]].
  - intros tx h. by destruct (Wallet.sign_transaction _ _ _).
  - intros tx. by destruct (Wallet.sign_transaction _ _ _).
  - by intros tx sg ->.
  - by intros ->.
Qed.

Lemma repository_provider_never_submits_witness :
  send_transaction answering
    (__init__ Wallet.generated (ProviderInstance Provider.on_a) true 1) transfer_request
  = (__init__ Wallet.generated (ProviderInstance Provider.on_a) true 1,
     Raise (AttributeError "web3"), [Sign alice transfer_request]).
Proof.
  apply (proj1 (proj2 (proj2 (repository_provider_never_submits answering
           (__init__ Wallet.generated (ProviderInstance Provider.on_a) true 1)
           Provider.on_a eq_refl))) transfer_request
           (mkSigned (mkHexBytes "signed-by:0xA11ce") (mkHexBytes "0xh"))).
  reflexivity.
Defined.

(** X21: nothing ever fills the nonce cache.  However many transactions
    a manager has sent since it was constructed, it is the manager that
    was constructed; so with [auto_nonce] off [get_nonce] answers 0 every
    time, and with [auto_nonce] on [use_pending] changes nothing: every
    call goes to the provider's [web3], which gives the node's count for
    a provider that has one and [AttributeError] for an instance of the
    repository's [Provider], the node not being asked. *)
Theorem nonce_cache_is_never_filled (b : Backend) (w : Wallet.t) (p : provider_obj)
    (auto : bool) (confirm : Z) (txs : list (gmap string pyval)) (use_pending : bool) :
  let self := send_all b (__init__ w p auto confirm) txs in
  self = __init__ w p auto confirm ∧
  nonce_cache self = None ∧
  pending_txs self = ∅ ∧
  get_nonce b self use_pending =
    if auto
    then match p with
         | Web3Holder => (get_transaction_count b (Wallet.address w),
                          [GetTransactionCount (Wallet.address w)])
         | ProviderInstance _ => (Raise (AttributeError "web3"), [])
         end
    else (Ok 0, []).
Proof.
  intros self. unfold self. rewrite send_all_self. repeat split.
  unfold get_nonce, __init__. simpl. destruct auto; [|done].
  by destruct use_pending, p.
Qed.

Lemma trace_all_signed b txs : ∀ self,
  signed_requests (trace_all b self txs) = txs.
Proof.
  induction txs as [|tx txs IH]; intros self; simpl; [done|].
  unfold signed_requests in *. rewrite omap_app, send_transaction_self, IH.
  unfold send_transaction.
  destruct (Wallet.sign_transaction _ _ _); [|done]. by destruct (web3_eth _ _).
Qed.

Lemma trace_all_submissions b txs : ∀ self,
  submissions (trace_all b self txs) =
    match provider self with
    | Web3Holder =>
        omap (λ tx, match Wallet.sign_transaction b (wallet self) tx with
                    | Ok signed_tx => Some (rawTransaction signed_tx)
                    | Raise _ => None
                    end) txs
    | ProviderInstance _ => []
    end.
Proof.
  induction txs as [|tx txs IH]; intros self; simpl; [by destruct (provider self)|].
  unfold submissions in *. rewrite omap_app, send_transaction_self, IH.
  unfold send_transaction.
  destruct (Wallet.sign_transaction _ _ _); destruct (provider self); done.
Qed.

(** X22: over any series of [send_transaction] calls every request is
    handed to the signer exactly once, in order and unchanged, whatever
    the provider.  With a provider that has a [web3], what reaches the
    node is exactly the raw form of the requests the signer accepted, in
    order, each once: a request whose signing fails is not submitted and
    does not stop the later ones.  With an instance of the repository's
    [Provider] nothing reaches the node. *)
Theorem requests_signed_once_submitted_if_signed (b : Backend) (self : t)
    (txs : list (gmap string pyval)) :
  signed_requests (trace_all b self txs) = txs ∧
  submissions (trace_all b self txs) =
    match provider self with
    | Web3Holder =>
        omap (λ tx, match Wallet.sign_transaction b (wallet self) tx with
                    | Ok signed_tx => Some (rawTransaction signed_tx)
                    | Raise _ => None
                    end) txs
    | ProviderInstance _ => []
    end.
Proof. split; [apply trace_all_signed|apply trace_all_submissions]. Qed.

End PipelineFacts.

(** * Facts about utils/abi.py *)

Module ABILoaderFacts.
Import ABILoader.

(** X23: whatever [from_dict] accepts, [from_file] accepts with the same
    result when the file holds that data; the converse fails for an
    artifact that keeps its ABI under [output.abi] only, which
    [from_file] unwraps and [from_dict] (hence [from_string]) rejects as
    an invalid dictionary. *)
Theorem from_file_accepts_more_than_from_dict (fs : FS) (path : string) (data : jv) :
  exists_ fs path = true →
  json_load fs path = Ok data →
  (∀ v, from_dict data = Loaded v → from_file fs path = Loaded v) ∧
  (∀ m o v, data = JObject m → m !! "abi" = None →
            m !! "output" = Some (JObject o) → o !! "abi" = Some v →
            from_file fs path = Loaded v ∧ from_dict data = Failed InvalidDict).
Proof.
  intros He Hl. unfold from_file, from_dict. rewrite He, Hl. simpl. split.
  - intros v. destruct data as [| | | s | l | m]; simpl; try done.
    + by destruct (bool_decide _).
    + by destruct (existsb _ _).
    + destruct (m !! "abi") as [x|] eqn:Hx; simpl; done.
  - intros m o v -> Hm Ho Hv. simpl. rewrite Hm, Ho. simpl. rewrite Hv. simpl. done.
Qed.

Lemma from_file_accepts_more_than_from_dict_witness :
  from_file project "abis/Token.json" = Loaded transfer_abi ∧
  from_dict foundry_artifact = Failed InvalidDict.
Proof.
  apply (proj2 (from_file_accepts_more_than_from_dict project "abis/Token.json"
                  foundry_artifact eq_refl eq_refl)
           (<["output" := JObject (<["abi" := transfer_abi]> ∅)]> ∅)
           (<["abi" := transfer_abi]> ∅) transfer_abi); reflexivity.
Defined.

Section SearchFacts.
Variable join : string → string → string.
Variable fs : FS.

Lemma try_patterns_spec dir ps :
  try_patterns join fs dir ps =
    from_file fs <$> head (filter (λ c, exists_ fs c = true) ((λ p, join dir p) <$> ps)).
Proof.
  induction ps as [|p ps IH]; [done|].
  cbn [try_patterns]. rewrite fmap_cons, filter_cons.
  destruct (decide (exists_ fs (join dir p) = true)) as [He|He].
  - by rewrite He.
  - apply not_true_is_false in He. by rewrite He.
Qed.

Lemma head_app_filter {A} (P : A → Prop) `{∀ x, Decision (P x)} (l1 l2 : list A) :
  head (filter P (l1 ++ l2)%list) =
    match head (filter P l1) with Some x => Some x | None => head (filter P l2) end.
Proof.
  rewrite filter_app. by destruct (filter P l1).
Qed.

Lemma search_spec dirs ps :
  search join fs dirs ps =
    from_file fs <$> head (filter (λ c, exists_ fs c = true) (candidates join fs dirs ps)).
Proof.
  unfold candidates. induction dirs as [|d dirs IH]; [done|].
  cbn [search]. rewrite filter_cons.
  destruct (decide (exists_ fs d = true)) as [Hd|Hd].
  - rewrite Hd. cbn [negb]. rewrite bind_cons, head_app_filter, try_patterns_spec.
    destruct (head (filter _ ((λ p, join d p) <$> ps))); simpl; [done|]. apply IH.
  - apply not_true_is_false in Hd. rewrite Hd. cbn [negb]. apply IH.
Qed.
End SearchFacts.

Lemma from_name_first_match join fs contract_name search_dirs :
  from_name join fs contract_name search_dirs =
    match head (filter (λ c, exists_ fs c = true)
                  (candidates join fs (default DEFAULT_ABI_DIRS search_dirs)
                     (patterns contract_name))) with
    | Some c => from_file fs c
    | None => Failed (AbiNotFound contract_name (default DEFAULT_ABI_DIRS search_dirs))
    end.
Proof.
  unfold from_name. rewrite search_spec. by destruct (head _).
Qed.

(** X24: [from_name] loads the first path that exists among the
    candidates, directory by directory in the order given (directories
    that do not exist are skipped) and within a directory in the order
    [name.json], [name.abi.json], [name.sol/name.json]; whatever
    [from_file] makes of that one file is the result, so a broken first
    match hides a good later one.  With no match it raises
    [FileNotFoundError] naming the contract and the directories. *)
Theorem from_name_loads_first_match (join : string → string → string) (fs : FS)
    (contract_name : string) (search_dirs : option (list string)) :
  let dirs := default DEFAULT_ABI_DIRS search_dirs in
  from_name join fs contract_name search_dirs =
    match head (filter (λ c, exists_ fs c = true)
                  (candidates join fs dirs (patterns contract_name))) with
    | Some c => from_file fs c
    | None => Failed (AbiNotFound contract_name dirs)
    end.
Proof. apply from_name_first_match. Qed.

(** X25: [from_name] never fails with the file-not-found error of
    [from_file]: it only opens paths it has just seen to exist. *)
Theorem from_name_opens_existing_files_only (join : string → string → string) (fs : FS)
    (contract_name : string) (search_dirs : option (list string)) (path : string) :
  from_name join fs contract_name search_dirs ≠ Failed (AbiFileNotFound path).
Proof.
  rewrite from_name_first_match.
  destruct (head _) as [c|] eqn:Hc; [|done].
  apply head_Some_elem_of, list_elem_of_filter in Hc as [Hc _].
  unfold from_file. rewrite Hc. simpl.
  destruct (json_load fs c) as [[| | | | |m]|]; try done.
  destruct (m !! "abi"); [done|]. destruct (m !! "output") as [o|]; [|done].
  destruct (contains_abi o) as [[]|]; try done. by destruct (subscript_abi o).
Qed.

Lemma from_name_loads_first_match_witness :
  from_name slash project "ERC20" (Some project_dirs)
    = Failed (InvalidFormat "contracts/ERC20.abi.json") ∧
  from_file project "abis/ERC20.json" = Loaded transfer_abi.
Proof.
  split; [|reflexivity].
  rewrite (from_name_loads_first_match slash project "ERC20" (Some project_dirs)).
  reflexivity.
Defined.

End ABILoaderFacts.
